(** * The k6 JavaScript module layer: resolver, module records, legacy require

    A shallow embedding of the Go package [js/modules] of k6 (resolver and
    module system, the legacy [require], the CommonJS module record and the
    two host-module records), and the properties of the specification that
    can be stated over it.

    Go values are modelled as follows.
    - A pointer to a module record is a constructor of [ModuleRecord] carrying
      an address; the [nil] interface is [NilModule].
    - A Go [map[string]interface{}] is a [gmap string GoAny]; its iteration
      order, which Go leaves unspecified, is the order of [map_to_list].
    - A function returning [(value, error)] returns an [Outcome]; a Go panic
      is the third constructor of [Outcome].
    - Mutable structs are passed in and out explicitly; the resolver, the
      runtime and the legacy require share one [World]. *)

From Stdlib Require Import ZArith Ascii String List Lia.
From stdpp Require Import base option gmap strings list fin_maps.

Local Open Scope string_scope.
Local Open Scope list_scope.

(** ** Go-side values *)

Module Go.

(** The errors this package creates itself, and those it receives from its
    collaborators (loader, compiler, engine). *)
Inductive error :=
| ErrUnknownModule (name : string)
| ErrEmptySpecifier
| ErrExportsMustBeObject
| ErrOther (msg : string).

Definition error_message (e : error) : string :=
  match e with
  | ErrUnknownModule name => "unknown module: " +:+ name
  | ErrEmptySpecifier => "require() can't be used with an empty specifier"
  | ErrExportsMustBeObject => "exports must be an object"
  | ErrOther msg => msg
  end.

(** What a Go panic carries. *)
Inductive PanicValue :=
| PanicMsg (msg : string)
| PanicNilDeref
| PanicIndexOutOfRange
| PanicTypeAssertion
| PanicTypeError (msg : string).

(** The result of a Go call of type [(A, error)] that may also panic. *)
Inductive Outcome (A : Type) :=
| Return (a : A)
| Error (e : error)
| Panic (p : PanicValue).
Arguments Return {A} a.
Arguments Error {A} e.
Arguments Panic {A} p.

(** Values of type [interface{}] handed over by host modules.  Host values
    that expose properties are maps; [AnyOther] stands for any value without
    properties of interest (a function, a channel, ...). *)
#[warnings="-register-all"]
Inductive GoAny :=
| AnyNil
| AnyBool (b : bool)
| AnyInt (z : Z)
| AnyString (s : string)
| AnyMap (m : gmap string GoAny)
| AnyOther (tag : nat).

Definition is_nil (a : GoAny) : bool :=
  match a with AnyNil => true | _ => false end.

(** Handle of a virtual user. *)
Record VU := { vu_id : nat }.

(** [modules.Exports] *)
Record Exports := {
  Named : option (gmap string GoAny);
  Default : GoAny
}.

(** [len(m)] and [range m] on a possibly nil map. *)
Definition map_entries (named : option (gmap string GoAny)) : gmap string GoAny :=
  default ∅ named.

(** [modules.Instance]: the interface has the single method [Exports()]. *)
Record Instance := { mi_Exports : Exports }.

(** [modules.Module]: the interface has the single method
    [NewModuleInstance(VU) Instance]. *)
Record K6Module := { NewModuleInstance : VU → Instance }.

(** A value of the built-in table [goModules map[string]any], together with
    the answer of the type assertion [mod.(Module)]. *)
Inductive HostModule :=
| Conforming (k6m : K6Module)
| NonConforming (v : GoAny).

End Go.
Export Go.

(** ** The engine's values (goja) *)

Module Goja.

(** The four kinds of module record, by address.  A
    [*goja.SourceTextModuleRecord] may be a nil pointer inside a non-nil
    interface. *)
Inductive ModuleRecord :=
| NilModule
| GoModulePtr (p : nat)
| BaseGoModulePtr (p : nat)
| CjsModulePtr (p : nat)
| SourceTextPtr (p : option nat).

#[global] Instance ModuleRecord_eq_dec : EqDecision ModuleRecord.
Proof. solve_decision. Defined.

Inductive Prim :=
| PBool (b : bool)
| PNum (z : Z)
| PStr (s : string).

(** [*goja.Object]: an object of the runtime's heap, a function, the wrapper
    the engine puts around a host value, a boxed primitive, or a module
    namespace. *)
Inductive Object :=
| ObjRef (l : nat)
| ObjFunc (f : nat)
| ObjHost (a : GoAny)
| ObjBoxed (p : Prim)
| ObjNamespace (m : ModuleRecord).

(** [goja.Value]; the Go [nil] value is [None] of [option Value]. *)
Inductive Value :=
| VUndefined
| VNull
| VPrim (p : Prim)
| VObj (o : Object).

(** [goja.IsNull] *)
Definition IsNull (v : option Value) : bool :=
  match v with Some VNull => true | _ => false end.

(** [goja.AssertFunction] *)
Definition AssertFunction (v : Value) : option nat :=
  match v with VObj (ObjFunc f) => Some f | _ => None end.

Definition ToBoolean (v : Value) : bool :=
  match v with
  | VUndefined | VNull => false
  | VPrim (PBool b) => b
  | VPrim (PNum z) => negb (Z.eqb z 0)
  | VPrim (PStr s) => negb (String.eqb s "")
  | VObj _ => true
  end.

(** [rt.ToValue] *)
Definition ToValue (a : GoAny) : Value :=
  match a with
  | AnyNil => VNull
  | AnyBool b => VPrim (PBool b)
  | AnyInt z => VPrim (PNum z)
  | AnyString s => VPrim (PStr s)
  | AnyMap _ | AnyOther _ => VObj (ObjHost a)
  end.

(** [v.ToObject(rt)] throws a TypeError on undefined and null; calling it
    on the Go [nil] value dereferences nil. *)
Definition ToObject (v : option Value) : Outcome Object :=
  match v with
  | None => Panic PanicNilDeref
  | Some VUndefined | Some VNull =>
      Panic (PanicTypeError "Cannot convert undefined or null to object")
  | Some (VPrim p) => Return (ObjBoxed p)
  | Some (VObj o) => Return o
  end.

Record StackFrame := { FuncName : string; SrcName : string }.

Inductive RejectionValue :=
| RejError (e : error)
| RejOther (v : Value).

Inductive PromiseState :=
| PromiseStatePending
| PromiseStateFulfilled
| PromiseStateRejected (result : RejectionValue).

(** [promise.Result().Export().(error)] *)
Definition rejection_error (r : RejectionValue) : Outcome error :=
  match r with
  | RejError e => Return e
  | RejOther _ => Panic PanicTypeAssertion
  end.

End Goja.
Export Goja.

(** ** The structs of the package and the runtime's state *)

Module Records.

(** [goModule] of gomodule.go; [gm_once] is the done flag of the
    [sync.Once]. *)
Record goModule := {
  gm_m : K6Module;
  gm_once : bool;
  gm_exportedNames : list string
}.

Record goModuleInstance := {
  gmi_mi : Instance;
  gmi_defaultExport : option Value
}.

(** [baseGoModule] of gomodule_basic.go *)
Record baseGoModule := {
  bgm_m : GoAny;
  bgm_once : bool;
  bgm_exportedNames : list string
}.

Record basicGoModuleInstance := { bgmi_v : Object }.

(** The compiled program of a factory module is opaque. *)
Record Program := { prg_id : nat }.

Record cjsModule := {
  cm_prg : Program;
  cm_main : bool;
  cm_exportedNames : list string;
  cm_o : bool
}.

(** [cmi_w] is the address of the [cjsModule] the instance belongs to. *)
Record cjsModuleInstance := {
  cmi_exports : option Object;
  cmi_w : nat;
  cmi_isEsModuleMarked : bool
}.

(** [goja.ModuleInstance]: the instances of the package's own records, and
    the engine's instances of source text modules. *)
Inductive ModuleInstance :=
| InstGoModule (gmi : goModuleInstance)
| InstBasicGoModule (bgmi : basicGoModuleInstance)
| InstCjs (cmi : cjsModuleInstance)
| InstSourceText.

(** What this package reads and writes of a [*goja.Runtime]: the object
    heap, the module instances ([rt.GetModuleInstance]), the call stack
    ([rt.CaptureCallStack], innermost frame first) and the global [vubox]. *)
Record Runtime := {
  objects : gmap nat (gmap string Value);
  instances : list (ModuleRecord * ModuleInstance);
  frames : list StackFrame;
  vubox : option VU
}.

Definition set_objects (f : gmap nat (gmap string Value) → gmap nat (gmap string Value))
    (rt : Runtime) : Runtime :=
  {| objects := f (objects rt); instances := instances rt;
     frames := frames rt; vubox := vubox rt |}.

(** [rt.NewObject()] *)
Definition NewObject (rt : Runtime) : Object * Runtime :=
  let l := fresh (dom (objects rt)) in
  (ObjRef l, set_objects (insert l ∅) rt).

(** [o.Get(name)]: [None] is the Go nil the engine returns for a missing
    property. *)
Definition Object_Get (rt : Runtime) (o : Object) (name : string) : option Value :=
  match o with
  | ObjRef l => objects rt !! l ≫= (λ props, props !! name)
  | ObjHost (AnyMap m) => ToValue <$> m !! name
  | _ => None
  end.

(** [o.Set(name, value)] on an object of the heap. *)
Definition Object_Set (o : Object) (name : string) (v : Value) (rt : Runtime) : Runtime :=
  match o with
  | ObjRef l => set_objects (alter (insert name v) l) rt
  | _ => rt
  end.

(** [o.Keys()] *)
Definition Object_Keys (rt : Runtime) (o : Object) : list string :=
  match o with
  | ObjRef l => (map_to_list (default ∅ (objects rt !! l))).*1
  | ObjHost (AnyMap m) => (map_to_list m).*1
  | _ => []
  end.

(** [rt.GetModuleInstance(m)] *)
Fixpoint assoc_lookup {K V} `{EqDecision K} (k : K) (l : list (K * V)) : option V :=
  match l with
  | [] => None
  | (k', v) :: l' => if decide (k = k') then Some v else assoc_lookup k l'
  end.

Definition GetModuleInstance (rt : Runtime) (m : ModuleRecord) : option ModuleInstance :=
  assoc_lookup m (instances rt).

End Records.
Export Records.

(** ** gomodule.go: conforming host modules *)

Module GoModule.

(** [goModule.Instantiate] (lines 28-39).  The slice of names is made with
    length [len(named)] and the names are appended to it. *)
Definition Instantiate (rt : Runtime) (gm : goModule) : Outcome goModuleInstance * goModule :=
  match vubox rt with
  | None => (Panic PanicNilDeref, gm)
  | Some vu =>
      let mi := NewModuleInstance (gm_m gm) vu in
      let gm' :=
        if gm_once gm then gm
        else
          let named := map_entries (Named (mi_Exports mi)) in
          let made := replicate (size named) "" in
          {| gm_m := gm_m gm; gm_once := true;
             gm_exportedNames :=
               fold_left (λ names kv, names ++ [kv.1]) (map_to_list named) made |} in
      (Return {| gmi_mi := mi; gmi_defaultExport := None |}, gm')
  end.

(** [goModule.GetExportedNames] (lines 45-48): a [sync.Once] whose function
    panics is done afterwards. *)
Definition GetExportedNames (gm : goModule) : Outcome (list string) * goModule :=
  if gm_once gm then (Return (gm_exportedNames gm), gm)
  else (Panic (PanicMsg "this shouldn't happen"),
        {| gm_m := gm_m gm; gm_once := true; gm_exportedNames := gm_exportedNames gm |}).

(** [goModuleInstance.getDefaultExport] (lines 80-102) *)
Definition getDefaultExport (gmi : goModuleInstance) (rt : Runtime)
    : Value * goModuleInstance * Runtime :=
  match gmi_defaultExport gmi with
  | Some v => (v, gmi, rt)
  | None =>
      let exports := mi_Exports (gmi_mi gmi) in
      if negb (is_nil (Default exports)) then
        let v := ToValue (Default exports) in
        (v, {| gmi_mi := gmi_mi gmi; gmi_defaultExport := Some v |}, rt)
      else
        let '(o, rt1) := NewObject rt in
        let gmi' := {| gmi_mi := gmi_mi gmi; gmi_defaultExport := Some (VObj o) |} in
        let rt2 :=
          fold_left (λ r kv, Object_Set o kv.1 (ToValue kv.2) r)
                    (map_to_list (map_entries (Named exports))) rt1 in
        (VObj o, gmi', rt2)
  end.

(** [goModuleInstance.GetBindingValue] (lines 68-78) *)
Definition GetBindingValue (gmi : goModuleInstance) (name : string) (rt : Runtime)
    : Outcome (option Value) * goModuleInstance * Runtime :=
  if String.eqb name "default" then
    let '(v, gmi', rt') := getDefaultExport gmi rt in (Return (Some v), gmi', rt')
  else
    match Named (mi_Exports (gmi_mi gmi)) with
    | Some named => (Return (Some (ToValue (default AnyNil (named !! name)))), gmi, rt)
    | None =>
        let '(v, gmi', rt') := getDefaultExport gmi rt in
        match ToObject (Some v) with
        | Return o => (Return (Object_Get rt' o name), gmi', rt')
        | Error e => (Error e, gmi', rt')
        | Panic p => (Panic p, gmi', rt')
        end
    end.

End GoModule.

(** ** gomodule_basic.go: non-conforming host modules *)

Module BasicGoModule.

(** [baseGoModule.Instantiate] (lines 30-36) *)
Definition Instantiate (rt : Runtime) (bgm : baseGoModule)
    : Outcome basicGoModuleInstance * baseGoModule :=
  match ToObject (Some (ToValue (bgm_m bgm))) with
  | Return o =>
      let bgm' :=
        if bgm_once bgm then bgm
        else {| bgm_m := bgm_m bgm; bgm_once := true;
                bgm_exportedNames := Object_Keys rt o |} in
      (Return {| bgmi_v := o |}, bgm')
  | Error e => (Error e, bgm)
  | Panic p => (Panic p, bgm)
  end.

(** [baseGoModule.GetExportedNames] (lines 47-50) *)
Definition GetExportedNames (bgm : baseGoModule) : Outcome (list string) * baseGoModule :=
  if bgm_once bgm then (Return (bgm_exportedNames bgm), bgm)
  else (Panic (PanicMsg "this shouldn't happen"),
        {| bgm_m := bgm_m bgm; bgm_once := true;
           bgm_exportedNames := bgm_exportedNames bgm |}).

(** [basicGoModuleInstance.GetBindingValue] (lines 56-61) *)
Definition GetBindingValue (rt : Runtime) (bgmi : basicGoModuleInstance) (n : string)
    : option Value :=
  if String.eqb n "default" then Some (VObj (bgmi_v bgmi))
  else Object_Get rt (bgmi_v bgmi) n.

End BasicGoModule.

(** ** The collaborators, the shared state and the monad of the package *)

Module Platform.

(** What the package consumes from outside: [net/url], the loader package,
    the file loader and the compiler handed to [NewModuleResolver], and
    [goja.ModuleFromAST].  All of them are functions of their arguments. *)
Class Collaborators := {
  URL : Type;
  url_String : URL → string;
  url_JoinPath : URL → string → URL;
  loader_Resolve : URL → string → error + URL;
  loader_Dir : URL → URL;
  loadCJS : URL → string → error + list Byte.byte;
  AST : Type;
  compiler_Parse : string → string → bool → error + (AST * bool);
  compiler_Compile : string → string → bool → error + Program;
  goja_ModuleFromAST : AST → option error
}.

Section with_collaborators.
Context {collab : Collaborators}.

(** [moduleCacheElement] *)
Record moduleCacheElement := {
  mce_mod : ModuleRecord;
  mce_err : option error
}.

(** [ModuleResolver]; [loadCJS] and [compiler] are the collaborators. *)
Record ModuleResolver := {
  cache : gmap string moduleCacheElement;
  goModules : gmap string HostModule;
  reverse : list (ModuleRecord * URL);
  base : URL
}.

(** The structs module records point to. *)
Inductive RecordObject :=
| HeapGoModule (gm : goModule)
| HeapBaseGoModule (bgm : baseGoModule)
| HeapCjsModule (cm : cjsModule)
| HeapSourceText (prg : AST).

(** The calls made to the collaborators, and the warnings logged, in the
    order they are made. *)
Inductive Event :=
| EvResolve (basePWD : URL) (arg : string)
| EvLoad (specifier : URL) (arg : string)
| EvParse (src name : string)
| EvCompile (src name : string)
| EvRequireModule (name : string)
| EvWarn (specifier parentModuleStr parentModuleStr2 : string).

Record World := {
  mr : ModuleResolver;
  heap : gmap nat RecordObject;
  rt : Runtime;
  currentlyRequiredModule : URL;
  trace : list Event
}.

Definition M (A : Type) : Type := World → Outcome A * World.

Definition ret {A} (a : A) : M A := λ w, (Return a, w).

Definition bind {A B} (m : M A) (k : A → M B) : M B := λ w,
  match m w with
  | (Return a, w') => k a w'
  | (Error e, w') => (Error e, w')
  | (Panic p, w') => (Panic p, w')
  end.

Definition fail {A} (e : error) : M A := λ w, (Error e, w).
Definition panic {A} (p : PanicValue) : M A := λ w, (Panic p, w).
Definition gets {A} (f : World → A) : M A := λ w, (Return (f w), w).
Definition modify (f : World → World) : M unit := λ w, (Return tt, f w).
Definition lift_outcome {A} (o : Outcome A) : M A := λ w, (o, w).

(** [v, err := f()] followed by a test of [err]. *)
Definition attempt {A} (m : M A) : M (error + A) := λ w,
  match m w with
  | (Return a, w') => (Return (inr a), w')
  | (Error e, w') => (Return (inl e), w')
  | (Panic p, w') => (Panic p, w')
  end.

(** A deferred call runs when the function returns and when it panics. *)
Definition with_defer {A} (deferred : World → World) (body : M A) : M A := λ w,
  let '(r, w') := body w in (r, deferred w').

Definition set_mr (f : ModuleResolver → ModuleResolver) (w : World) : World :=
  {| mr := f (mr w); heap := heap w; rt := rt w;
     currentlyRequiredModule := currentlyRequiredModule w; trace := trace w |}.

Definition set_heap (f : gmap nat RecordObject → gmap nat RecordObject) (w : World) : World :=
  {| mr := mr w; heap := f (heap w); rt := rt w;
     currentlyRequiredModule := currentlyRequiredModule w; trace := trace w |}.

Definition set_rt (f : Runtime → Runtime) (w : World) : World :=
  {| mr := mr w; heap := heap w; rt := f (rt w);
     currentlyRequiredModule := currentlyRequiredModule w; trace := trace w |}.

Definition set_currentlyRequiredModule (u : URL) (w : World) : World :=
  {| mr := mr w; heap := heap w; rt := rt w;
     currentlyRequiredModule := u; trace := trace w |}.

Definition add_event (ev : Event) (w : World) : World :=
  {| mr := mr w; heap := heap w; rt := rt w;
     currentlyRequiredModule := currentlyRequiredModule w;
     trace := trace w ++ [ev] |}.

Definition log (ev : Event) : M unit := modify (add_event ev).

(** How often a list of events calls the file loader, the compiler's
    [Parse], the compiler's [Compile], and the compiler at all. *)
Definition is_load (ev : Event) : bool :=
  match ev with EvLoad _ _ => true | _ => false end.
Definition is_parse (ev : Event) : bool :=
  match ev with EvParse _ _ => true | _ => false end.
Definition is_compile (ev : Event) : bool :=
  match ev with EvCompile _ _ => true | _ => false end.
Definition is_table_lookup (ev : Event) : bool :=
  match ev with EvRequireModule _ => true | _ => false end.

Definition calls (p : Event → bool) (evs : list Event) : nat :=
  length (List.filter p evs).

Definition loader_calls : list Event → nat := calls is_load.
Definition parse_calls : list Event → nat := calls is_parse.
Definition compile_calls : list Event → nat := calls is_compile.
Definition compiler_calls (evs : list Event) : nat := parse_calls evs + compile_calls evs.

(** A computation that leaves the directory tracked by the legacy require
    as it found it, whatever its outcome. *)
Definition keeps_directory {A} (m : M A) : Prop :=
  ∀ w, currentlyRequiredModule (m w).2 = currentlyRequiredModule w.

(** [mr.cache[key] = elem] *)
Definition cache_store (key : string) (elem : moduleCacheElement) : M unit :=
  modify (set_mr (λ r, {| cache := <[key := elem]> (cache r); goModules := goModules r;
                          reverse := reverse r; base := base r |})).

Fixpoint assoc_insert {K V} `{EqDecision K} (k : K) (v : V) (l : list (K * V)) : list (K * V) :=
  match l with
  | [] => [(k, v)]
  | (k', v') :: l' => if decide (k = k') then (k, v) :: l' else (k', v') :: assoc_insert k v l'
  end.

(** [mr.reverse[mod] = specifier] *)
Definition reverse_store (m : ModuleRecord) (specifier : URL) : M unit :=
  modify (set_mr (λ r, {| cache := cache r; goModules := goModules r;
                          reverse := assoc_insert m specifier (reverse r); base := base r |})).

(** [&T{...}]: a new struct at an address not in use. *)
Definition alloc (obj : RecordObject) : M nat := λ w,
  let p := fresh (dom (heap w)) in
  (Return p, set_heap (insert p obj) w).

End with_collaborators.

#[global] Instance M_ret {collab : Collaborators} : MRet M := @ret _.
#[global] Instance M_bind {collab : Collaborators} : MBind M := λ A B k m, bind m k.

(** The engine, as far as the package calls it.  Script code reaches the
    legacy require through the global [require]; the engine's entry points
    that run script code therefore take that binding as their first
    argument. *)
Class Interpreter {collab : Collaborators} := {
  RunProgram : Program → M Value;
  CallFunction : (string → M (option Object)) → nat → Value → list Value → M Value
}.

Class Evaluator {collab : Collaborators} := {
  SourceText_Link : nat → M (option error);
  CyclicModuleRecordEvaluate : (string → M (option Object)) → ModuleRecord → M PromiseState
}.

End Platform.
Export Platform.

(** ** part_000: the resolver and the module system *)

Module Resolver.
Section with_collaborators.
Context {collab : Collaborators}.

(** The reserved namespace: [arg == "k6" || strings.HasPrefix(arg, "k6/")] *)
Definition is_builtin (arg : string) : bool :=
  String.eqb arg "k6" || String.prefix "k6/" arg.

(** [resolveSpecifier] (lines 47-53) *)
Definition resolveSpecifier (basePWD : URL) (arg : string) : M (error + URL) :=
  log (EvResolve basePWD arg);;
  mret (loader_Resolve basePWD arg).

(** [requireModule] (lines 55-65) *)
Definition requireModule (name : string) : M (ModuleRecord * option error) :=
  log (EvRequireModule name);;
  table ← gets (λ w, goModules (mr w));
  match table !! name with
  | None => mret (NilModule, Some (ErrUnknownModule name))
  | Some (NonConforming v) =>
      p ← alloc (HeapBaseGoModule {| bgm_m := v; bgm_once := false; bgm_exportedNames := [] |});
      mret (BaseGoModulePtr p, None)
  | Some (Conforming k6m) =>
      p ← alloc (HeapGoModule {| gm_m := k6m; gm_once := false; gm_exportedNames := [] |});
      mret (GoModulePtr p, None)
  end.

(** [cjsModuleFromString] with [newCjsModule] (part_001, lines 330-336
    and 237-239) *)
Definition cjsModuleFromString (fileURL : URL) (data : list Byte.byte)
    : M (ModuleRecord * option error) :=
  log (EvCompile (string_of_list_byte data) (url_String fileURL));;
  match compiler_Compile (string_of_list_byte data) (url_String fileURL) false with
  | inl err => mret (NilModule, Some err)
  | inr pgm =>
      p ← alloc (HeapCjsModule {| cm_prg := pgm; cm_main := false;
                                  cm_exportedNames := []; cm_o := false |});
      mret (CjsModulePtr p, None)
  end.

(** [goja.ModuleFromAST(prg, mr.gojaModuleResolver)]: the engine builds the
    record without calling the resolver; on an error the pointer is nil. *)
Definition ModuleFromAST (prg : AST) : M (ModuleRecord * option error) :=
  match goja_ModuleFromAST prg with
  | Some err => mret (SourceTextPtr None, Some err)
  | None => p ← alloc (HeapSourceText prg); mret (SourceTextPtr (Some p), None)
  end.

(** [resolveLoaded] (lines 67-90) *)
Definition resolveLoaded (basePWD : URL) (arg : string) (data : list Byte.byte)
    : M (ModuleRecord * option error) :=
  r ← resolveSpecifier basePWD arg;
  match r with
  | inl err => mret (NilModule, Some err)
  | inr specifier =>
      c ← gets (λ w, cache (mr w));
      match c !! url_String specifier with
      | Some cached => mret (mce_mod cached, mce_err cached)
      | None =>
          log (EvParse (string_of_list_byte data) (url_String specifier));;
          match compiler_Parse (string_of_list_byte data) (url_String specifier) false with
          | inl err =>
              cache_store (url_String specifier) {| mce_mod := NilModule; mce_err := Some err |};;
              mret (NilModule, Some err)
          | inr (prg, isESM) =>
              '(m, err) ← (if isESM : bool then ModuleFromAST prg
                           else cjsModuleFromString specifier data);
              reverse_store m specifier;;
              cache_store (url_String specifier) {| mce_mod := m; mce_err := err |};;
              mret (m, err)
          end
      end
  end.

(** [resolve] (lines 97-126) *)
Definition resolve (basePWD : URL) (arg : string) : M (ModuleRecord * option error) :=
  if is_builtin arg then
    c ← gets (λ w, cache (mr w));
    match c !! arg with
    | Some cached => mret (mce_mod cached, mce_err cached)
    | None =>
        '(m, err) ← requireModule arg;
        cache_store arg {| mce_mod := m; mce_err := err |};;
        mret (m, err)
    end
  else
    r ← resolveSpecifier basePWD arg;
    match r with
    | inl err => mret (NilModule, Some err)
    | inr specifier =>
        c ← gets (λ w, cache (mr w));
        match c !! url_String specifier with
        | Some cached => mret (mce_mod cached, mce_err cached)
        | None =>
            log (EvLoad specifier arg);;
            match loadCJS specifier arg with
            | inl err =>
                cache_store (url_String specifier)
                            {| mce_mod := NilModule; mce_err := Some err |};;
                mret (NilModule, Some err)
            | inr data => resolveLoaded basePWD arg data
            end
        end
    end.

(** The key under which [resolve] looks a specifier up (lines 102 and
    109-114): the name itself in the built-in namespace, the text of the
    canonical locator otherwise.  A specifier that cannot be canonicalized
    has none. *)
Definition cache_key (basePWD : URL) (arg : string) : option string :=
  if is_builtin arg then Some arg
  else match loader_Resolve basePWD arg with
       | inr specifier => Some (url_String specifier)
       | inl _ => None
       end.

(** [Imported] (lines 130-139) *)
Definition Imported (r : ModuleResolver) : list string :=
  (map_to_list (cache r)).*1.

(** [reversePath] (lines 147-160) *)
Definition reversePath (referencingScriptOrModule : ModuleRecord) : M URL :=
  r ← gets mr;
  match assoc_lookup referencingScriptOrModule (reverse r) with
  | None =>
      if decide (referencingScriptOrModule = NilModule) then mret (base r)
      else panic (PanicMsg "fix this")
  | Some p =>
      if String.eqb (url_String p) "file://-" then mret (base r)
      else mret (url_JoinPath p "..")
  end.

(** [gojaModuleResolver] (lines 141-145) *)
Definition gojaModuleResolver (referencingScriptOrModule : ModuleRecord) (specifier : string)
    : M (ModuleRecord * option error) :=
  basePWD ← reversePath referencingScriptOrModule;
  resolve basePWD specifier.

End with_collaborators.
End Resolver.
Export Resolver.

(** ** part_001, second file: the CommonJS module record *)

Module Cjs.
Section with_engine.
Context {collab : Collaborators} {interp : Interpreter}.

(** [cjsModule.Instantiate] (lines 245-247); [p] is the record's address. *)
Definition Instantiate (p : nat) : cjsModuleInstance :=
  {| cmi_exports := None; cmi_w := p; cmi_isEsModuleMarked := false |}.

(** [cjsModule.GetExportedNames] (lines 255-261) *)
Definition GetExportedNames (cm : cjsModule) : Outcome (list string) * cjsModule :=
  if cm_o cm then (Return (cm_exportedNames cm), cm)
  else (Panic (PanicMsg "somehow we first got to GetExportedNames of a commonjs module before they were set- this should never happen and is some kind of a bug"),
        {| cm_prg := cm_prg cm; cm_main := cm_main cm;
           cm_exportedNames := cm_exportedNames cm; cm_o := true |}).

Definition new_object : M Object := λ w,
  let '(o, rt') := NewObject (rt w) in (Return o, set_rt (λ _, rt') w).

(** [cmi.w.o.Do(func() { cmi.w.exportedNames = cmi.exports.Keys() })] *)
Definition set_exportedNames_once (p : nat) (o : Object) : M unit :=
  modify (λ w,
    match heap w !! p with
    | Some (HeapCjsModule cm) =>
        if cm_o cm then w
        else set_heap (insert p (HeapCjsModule
               {| cm_prg := cm_prg cm; cm_main := cm_main cm;
                  cm_exportedNames := Object_Keys (rt w) o; cm_o := true |})) w
    | _ => w
    end).

(** [cjsModuleInstance.ExecuteModule] (lines 282-310).  The result is the
    receiver as the call leaves it, and the error returned, if any. *)
Definition ExecuteModule (require : string → M (option Object)) (cmi : cjsModuleInstance)
    : M (cjsModuleInstance * option error) :=
  h ← gets heap;
  match h !! cmi_w cmi with
  | Some (HeapCjsModule cm) =>
      r ← attempt (RunProgram (cm_prg cm));
      match r with
      | inl err => mret (cmi, Some err)
      | inr v =>
          module ← new_object;
          exports ← new_object;
          let cmi1 := {| cmi_exports := Some exports; cmi_w := cmi_w cmi;
                         cmi_isEsModuleMarked := cmi_isEsModuleMarked cmi |} in
          modify (set_rt (Object_Set module "exports" (VObj exports)));;
          match AssertFunction v with
          | None => panic (PanicMsg "Somehow a commonjs module is not wrapped in a function - this is a k6 bug")
          | Some call =>
              r ← attempt (CallFunction require call (VObj exports) [VObj module; VObj exports]);
              match r with
              | inl err => mret (cmi1, Some err)
              | inr _ =>
                  exportsV ← gets (λ w, Object_Get (rt w) module "exports");
                  if IsNull exportsV then mret (cmi1, Some ErrExportsMustBeObject)
                  else
                    o ← lift_outcome (ToObject exportsV);
                    set_exportedNames_once (cmi_w cmi) o;;
                    __esModule ← gets (λ w, Object_Get (rt w) o "__esModule");
                    mret ({| cmi_exports := Some o; cmi_w := cmi_w cmi;
                             cmi_isEsModuleMarked :=
                               match __esModule with
                               | Some v => ToBoolean v
                               | None => false
                               end |}, None)
              end
          end
      end
  | _ => panic PanicNilDeref
  end.

(** [cjsModuleInstance.GetBindingValue] (lines 312-323) *)
Definition GetBindingValue (rt : Runtime) (cmi : cjsModuleInstance) (name : string)
    : Outcome (option Value) :=
  match cmi_exports cmi with
  | None => Panic PanicNilDeref
  | Some exports =>
      if String.eqb name "default" then
        match Object_Get rt exports "default" with
        | Some d => Return (Some d)
        | None => Return (Some (VObj exports))
        end
      else Return (Object_Get rt exports name)
  end.

End with_engine.
End Cjs.

(** ** part_000, continued: the module system *)

Module ModuleSystem.
Section with_engine.
Context {collab : Collaborators} {engine : Evaluator}.

(** [loader.SourceData], the fields read here. *)
Record SourceData := { sd_URL : URL; sd_Data : list Byte.byte }.

(** [m.Link()]: the package's own records return nil; a method call through
    a nil interface or a nil pointer panics. *)
Definition Link (m : ModuleRecord) : M (option error) :=
  match m with
  | NilModule | SourceTextPtr None => panic PanicNilDeref
  | GoModulePtr _ | BaseGoModulePtr _ | CjsModulePtr _ => mret None
  | SourceTextPtr (Some p) => SourceText_Link p
  end.

(** [m.(goja.CyclicModuleRecord)]: all four record types implement it. *)
Definition is_CyclicModuleRecord (m : ModuleRecord) : bool :=
  match m with NilModule => false | _ => true end.

(** [ModuleSystem.RunSourceData] (lines 188-218) *)
Definition RunSourceData (require : string → M (option Object)) (source : SourceData)
    : M ModuleRecord :=
  let specifier := url_String (sd_URL source) in
  let pwd := url_JoinPath (sd_URL source) "../" in
  '(_, err) ← resolveLoaded pwd specifier (sd_Data source);
  match err with
  | Some e => fail e
  | None =>
      '(m, err) ← resolve pwd specifier;
      match err with
      | Some e => fail e
      | None =>
          err ← Link m;
          match err with
          | Some e => fail e
          | None =>
              if negb (is_CyclicModuleRecord m) then mret m
              else
                promise ← CyclicModuleRecordEvaluate require m;
                match promise with
                | PromiseStateRejected result =>
                    e ← lift_outcome (rejection_error result); fail e
                | PromiseStateFulfilled => mret m
                | PromiseStatePending =>
                    panic (PanicMsg "TLA not supported in k6 at the moment")
                end
          end
      end
  end.

End with_engine.
End ModuleSystem.
Export ModuleSystem.

(** ** part_001, first file: the legacy require *)

Module LegacyRequire.
Section with_engine.
Context {collab : Collaborators} {engine : Evaluator}.

(** [rt.CaptureCallStack(depth, buf[:0])] for a positive [depth] *)
Definition CaptureCallStack (rt : Runtime) (depth : nat) : list StackFrame :=
  take depth (frames rt).

(** [getCurrentModuleScript] (lines 163-170) *)
Definition getCurrentModuleScript (rt : Runtime) : Outcome string :=
  match CaptureCallStack rt 2 !! 1%nat with
  | Some frame => Return (SrcName frame)
  | None => Panic PanicIndexOutOfRange
  end.

Definition require_fm : string := "go.k6.io/k6/js.(*requireImpl).require-fm".

(** The loop of [getPreviousRequiringFile]: [prev] is [frames[i]] while
    [rest] starts at [frames[i+1]]. *)
Fixpoint previous_of_require (prev : StackFrame) (rest : list StackFrame) : option string :=
  match rest with
  | [] => None
  | frame :: rest' =>
      if String.eqb (FuncName frame) require_fm then Some (SrcName prev)
      else previous_of_require frame rest'
  end.

(** [getPreviousRequiringFile] (lines 172-192) *)
Definition getPreviousRequiringFile (rt : Runtime) : Outcome string :=
  let frames := CaptureCallStack rt 1000 in
  match frames with
  | [] => Panic PanicIndexOutOfRange
  | first :: rest =>
      match previous_of_require first rest with
      | Some src => Return src
      | None =>
          if Nat.eqb (length frames) 1000 then Panic (PanicMsg "stack too big")
          else Return (SrcName (List.last frames first))
      end
  end.

(** [toESModuleExports] (lines 194-215) *)
Definition toESModuleExports (exp : Exports) : GoAny :=
  match Named exp with
  | None => Default exp
  | Some named =>
      if is_nil (Default exp) then AnyMap named
      else
        let result : gmap string GoAny :=
          fold_left (λ result kv, <[kv.1 := kv.2]> result) (map_to_list named) ∅ in
        let result := <["default" := Default exp]> result in
        let result := <["__esModule" := AnyBool true]> result in
        AnyMap result
  end.

(** [getModuleInstanceFromGoModule] (lines 110-137); [p] is the address of
    the [*goModule]. *)
Definition getModuleInstanceFromGoModule (require : string → M (option Object)) (p : nat)
    : M goModuleInstance :=
  let wm := GoModulePtr p in
  mi ← gets (λ w, GetModuleInstance (rt w) wm);
  mi ← match mi with
       | Some i => mret (Some i)
       | None =>
           err ← Link wm;
           match err with
           | Some e => fail e
           | None =>
               promise ← CyclicModuleRecordEvaluate require wm;
               err ← match promise with
                     | PromiseStateRejected result =>
                         e ← lift_outcome (rejection_error result); mret (Some e)
                     | PromiseStateFulfilled => mret None
                     | PromiseStatePending =>
                         panic (PanicMsg "TLA in go modules is not supported in k6 at the moment")
                     end;
               match err with
               | Some e => fail e
               | None => gets (λ w, GetModuleInstance (rt w) wm)
               end
           end
       end;
  match mi with
  | Some (InstGoModule gmi) => mret gmi
  | _ => panic (PanicMsg "a goModule instance is of not goModuleInstance type. This is a k6 bug please report!")
  end.

(** [Require], lines 51-55: the specifier is resolved against the tracked
    directory, which then moves to the directory of the resolved file. *)
Definition trackCurrentlyRequired (specifier : string) : M unit :=
  pwd ← gets currentlyRequiredModule;
  log (EvResolve pwd specifier);;
  match loader_Resolve pwd specifier with
  | inl err => fail err
  | inr fileURL => modify (set_currentlyRequiredModule (loader_Dir fileURL))
  end.

(** [Require], lines 62-75: the requiring file is read off the call stack,
    resolved to its record, and the specifier is resolved against it. *)
Definition resolveRequired (specifier : string) : M ModuleRecord :=
  r ← gets rt;
  parentModuleStr ← lift_outcome (getCurrentModuleScript r);
  parentModuleStr2 ← lift_outcome (getPreviousRequiringFile r);
  parentModuleStr ←
    (if negb (String.eqb parentModuleStr parentModuleStr2) then
       log (EvWarn specifier parentModuleStr parentModuleStr2);; mret parentModuleStr2
     else mret parentModuleStr);
  '(parentModule, _) ← gojaModuleResolver NilModule parentModuleStr;
  '(m, err) ← gojaModuleResolver parentModule specifier;
  match err with
  | Some e => fail e
  | None => mret m
  end.

(** [Require], lines 76-84: a conforming host module. *)
Definition requireGoModule (require : string → M (option Object)) (p : nat)
    : M (option Object) :=
  gmi ← getModuleInstanceFromGoModule require p;
  let exports := toESModuleExports (mi_Exports (gmi_mi gmi)) in
  o ← lift_outcome (ToObject (Some (ToValue exports)));
  mret (Some o).

(** [Require], lines 85-107: any other record. *)
Definition requireScriptModule (require : string → M (option Object)) (m : ModuleRecord)
    : M (option Object) :=
  err ← Link m;
  match err with
  | Some e => fail e
  | None =>
      promise ← (if is_CyclicModuleRecord m then CyclicModuleRecordEvaluate require m
                 else panic (PanicMsg "shouldn't happen"));
      err ← match promise with
            | PromiseStateRejected result =>
                e ← lift_outcome (rejection_error result); mret (Some e)
            | PromiseStateFulfilled => mret None
            | PromiseStatePending => mret None
            end;
      match err with
      | Some e => fail e
      | None =>
          match m with
          | CjsModulePtr _ =>
              mi ← gets (λ w, GetModuleInstance (rt w) m);
              match mi with
              | Some (InstCjs cmi) => mret (cmi_exports cmi)
              | _ => panic PanicTypeAssertion
              end
          | _ => mret (Some (ObjNamespace m))
          end
      end
  end.

(** [Require], lines 58-107: what follows the tracking of the directory. *)
Definition requireResolved (require : string → M (option Object)) (specifier : string)
    : M (option Object) :=
  if String.eqb specifier "" then fail ErrEmptySpecifier
  else
    m ← resolveRequired specifier;
    match m with
    | GoModulePtr p => requireGoModule require p
    | _ => requireScriptModule require m
    end.

(** [LegacyRequireImpl.Require] (lines 32-108).  [require] is what a
    [require] call made by the script code run during this call reaches. *)
Definition Require_step (require : string → M (option Object)) (specifier : string)
    : M (option Object) :=
  currentPWD ← gets currentlyRequiredModule;
  if negb (is_builtin specifier) then
    with_defer (set_currentlyRequiredModule currentPWD)
      (trackCurrentlyRequired specifier;; requireResolved require specifier)
  else requireResolved require specifier.

(** [Require] with nested calls followed to the given depth; a deeper nest
    overflows the stack. *)
Fixpoint Require (depth : nat) (specifier : string) {struct depth} : M (option Object) :=
  Require_step
    (match depth with
     | O => λ _, panic (PanicMsg "stack overflow")
     | S d => Require d
     end) specifier.

End with_engine.
End LegacyRequire.
Export LegacyRequire.

(** ** A small installation: files, built-in table and a script engine

    A concrete loader, compiler and engine over which the definitions above
    run: locators are strings, a directory ends in a slash, a file's text
    names what its body does.  It follows the layout of the specification's
    example, a main file [/a/b.js] that requires [./sub/c.js], whose body
    requires [./d.js]. *)

Module Scenario.

Fixpoint has_slash (s : string) : bool :=
  match s with
  | EmptyString => false
  | String c rest => Ascii.eqb c "/"%char || has_slash rest
  end.

(** The locator up to and including its last slash. *)
Fixpoint dirname (s : string) : string :=
  match s with
  | EmptyString => EmptyString
  | String c rest =>
      if has_slash rest then String c (dirname rest)
      else if Ascii.eqb c "/"%char then String c EmptyString else EmptyString
  end.

(** The loader rejects the empty specifier and a broken escape, resolves
    [./x] against the base directory and takes anything else as absolute. *)
Definition Resolve (basePWD : string) (arg : string) : error + string :=
  if String.eqb arg "" then inl (ErrOther "local or remote path required")
  else if String.prefix "%" arg then inl (ErrOther "invalid URL escape")
  else if String.prefix "./" arg then
    inr (basePWD +:+ String.substring 2 (String.length arg - 2) arg)
  else inr arg.

Definition files : list (string * string) :=
  [ ("file:///a/b.js", "cjs0");
    ("file:///a/sub/c.js", "cjs3");
    ("file:///a/sub/d.js", "cjs0");
    ("file:///a/undef.js", "cjs1");
    ("file:///a/null.js", "cjs2");
    ("file:///a/tla.mjs", "esm await");
    ("file:///a/mod.mjs", "esm");
    ("file:///a/garbage.js", "garbage");
    ("file:///a/half.js", "half") ].

Definition load (specifier : string) (arg : string) : error + list Byte.byte :=
  match assoc_lookup specifier files with
  | Some text => inr (list_byte_of_string text)
  | None => inl (ErrOther "file not found")
  end.

Definition Parse (src name : string) (builtin : bool) : error + (string * bool) :=
  if String.eqb src "garbage" then inl (ErrOther "SyntaxError")
  else inr (src, String.prefix "esm" src).

Definition Compile (src name : string) (builtin : bool) : error + Program :=
  if String.eqb src "cjs0" then inr {| prg_id := 0 |}
  else if String.eqb src "cjs1" then inr {| prg_id := 1 |}
  else if String.eqb src "cjs2" then inr {| prg_id := 2 |}
  else if String.eqb src "cjs3" then inr {| prg_id := 3 |}
  else inl (ErrOther "compile error").

#[local] Instance collaborators : Collaborators := {|
  URL := string;
  url_String := id;
  url_JoinPath := λ u _, dirname u;
  loader_Resolve := Resolve;
  loader_Dir := dirname;
  loadCJS := load;
  AST := string;
  compiler_Parse := Parse;
  compiler_Compile := Compile;
  goja_ModuleFromAST := λ _, None
|}.

Definition native_require : StackFrame :=
  {| FuncName := require_fm; SrcName := "<native>" |}.

Definition script_frame (src : string) : StackFrame :=
  {| FuncName := ""; SrcName := src |}.

Definition set_frames (fs : list StackFrame) (r : Runtime) : Runtime :=
  {| objects := objects r; instances := instances r; frames := fs; vubox := vubox r |}.

(** Script code of [src] calling [require(specifier)]: the engine pushes
    the frame of the script and the frame of the native function, and pops
    them when the call is over. *)
Definition call_require (require : string → M (option Object)) (src specifier : string)
    : M (option Object) :=
  old ← gets (λ w, frames (rt w));
  modify (set_rt (set_frames (native_require :: script_frame src :: old)));;
  with_defer (set_rt (set_frames old)) (require specifier).

(** The factory bodies: 0 leaves the exports alone, 1 assigns undefined to
    [module.exports], 2 assigns null, 3 is the body of [/a/sub/c.js]. *)
#[local] Instance interpreter : Interpreter := {|
  RunProgram := λ prg, mret (VObj (ObjFunc (prg_id prg)));
  CallFunction := λ require f this args,
    match f, args with
    | 1, VObj module :: _ =>
        modify (set_rt (Object_Set module "exports" VUndefined));; mret VUndefined
    | 2, VObj module :: _ =>
        modify (set_rt (Object_Set module "exports" VNull));; mret VUndefined
    | 3, _ => call_require require "file:///a/sub/c.js" "./d.js";; mret VUndefined
    | _, _ => mret VUndefined
    end
|}.

Definition set_instances (f : list (ModuleRecord * ModuleInstance) → list (ModuleRecord * ModuleInstance))
    (r : Runtime) : Runtime :=
  {| objects := objects r; instances := f (instances r); frames := frames r; vubox := vubox r |}.

Definition store_instance (m : ModuleRecord) (i : ModuleInstance) : M unit :=
  modify (set_rt (set_instances (assoc_insert m i))).

(** The evaluation of a record: a record that has an instance is done; a
    factory module is instantiated and executed; a host module is
    instantiated; a source text module that awaits stays pending. *)
Definition evaluate (require : string → M (option Object)) (m : ModuleRecord) : M PromiseState :=
  mi ← gets (λ w, GetModuleInstance (rt w) m);
  h ← gets heap;
  r ← gets rt;
  match mi, m with
  | Some _, _ => mret PromiseStateFulfilled
  | None, CjsModulePtr p =>
      '(cmi, err) ← Cjs.ExecuteModule require (Cjs.Instantiate p);
      match err with
      | Some e => mret (PromiseStateRejected (RejError e))
      | None => store_instance m (InstCjs cmi);; mret PromiseStateFulfilled
      end
  | None, GoModulePtr p =>
      match h !! p with
      | Some (HeapGoModule gm) =>
          let '(o, gm') := GoModule.Instantiate r gm in
          modify (set_heap (insert p (HeapGoModule gm')));;
          gmi ← lift_outcome o;
          store_instance m (InstGoModule gmi);; mret PromiseStateFulfilled
      | _ => panic PanicNilDeref
      end
  | None, BaseGoModulePtr p =>
      match h !! p with
      | Some (HeapBaseGoModule bgm) =>
          let '(o, bgm') := BasicGoModule.Instantiate r bgm in
          modify (set_heap (insert p (HeapBaseGoModule bgm')));;
          bgmi ← lift_outcome o;
          store_instance m (InstBasicGoModule bgmi);; mret PromiseStateFulfilled
      | _ => panic PanicNilDeref
      end
  | None, SourceTextPtr (Some p) =>
      match h !! p with
      | Some (HeapSourceText prg) =>
          if String.eqb prg "esm await" then mret PromiseStatePending
          else store_instance m InstSourceText;; mret PromiseStateFulfilled
      | _ => panic PanicNilDeref
      end
  | None, _ => panic PanicNilDeref
  end.

#[local] Instance evaluator : Evaluator := {|
  SourceText_Link := λ _, mret None;
  CyclicModuleRecordEvaluate := evaluate
|}.

Definition instance_of (e : Exports) : K6Module :=
  {| NewModuleInstance := λ _, {| mi_Exports := e |} |}.

Definition named_xy : gmap string GoAny := {[ "x" := AnyInt 1; "y" := AnyInt 2 ]}.

Definition builtins : gmap string HostModule :=
  {[ "k6/named" := Conforming (instance_of {| Named := Some named_xy; Default := AnyNil |});
     "k6/default" := Conforming (instance_of {| Named := None; Default := AnyString "d" |});
     "k6/both" := Conforming (instance_of {| Named := Some named_xy; Default := AnyString "d" |});
     "k6/clash" := Conforming (instance_of {| Named := Some {[ "default" := AnyInt 1 ]};
                                               Default := AnyInt 2 |});
     "k6/basic" := NonConforming (AnyMap {[ "default" := AnyInt 7; "x" := AnyInt 1 ]}) ]}.

(** The record of a conforming host module with the named exports
    [{x: 1, y: 2}], before its first instantiation, and an instance of it. *)
Definition named_module : goModule :=
  {| gm_m := instance_of {| Named := Some named_xy; Default := AnyNil |};
     gm_once := false; gm_exportedNames := [] |}.

Definition named_instance : goModuleInstance :=
  {| gmi_mi := {| mi_Exports := {| Named := Some named_xy; Default := AnyNil |} |};
     gmi_defaultExport := None |}.

(** The record of a non-conforming host module whose value has a property
    named [default]. *)
Definition basic_module : baseGoModule :=
  {| bgm_m := AnyMap {[ "default" := AnyInt 7; "x" := AnyInt 1 ]};
     bgm_once := false; bgm_exportedNames := [] |}.

Definition runtime0 : Runtime :=
  {| objects := ∅; instances := [];
     frames := [native_require; script_frame "file:///a/b.js"];
     vubox := Some {| vu_id := 1 |} |}.

(** The main file [/a/b.js] is running and calls [require]. *)
Definition world0 : World :=
  {| mr := {| cache := ∅; goModules := builtins; reverse := []; base := "file:///a/" |};
     heap := ∅;
     rt := runtime0;
     currentlyRequiredModule := "file:///a/";
     trace := [] |}.

(** A world whose only record, at address 0, is a factory module with the
    given body. *)
Definition world_cjs (body : nat) : World :=
  {| mr := {| cache := ∅; goModules := builtins; reverse := []; base := "file:///a/" |};
     heap := {[ 0 := HeapCjsModule {| cm_prg := {| prg_id := body |}; cm_main := false;
                                      cm_exportedNames := []; cm_o := false |} ]};
     rt := runtime0;
     currentlyRequiredModule := "file:///a/";
     trace := [] |}.

End Scenario.

(** ** Constructors, and what the resolver keeps true of its state *)

Module Construction.
Section with_collaborators.
Context {collab : Collaborators}.

(** [NewModuleResolver] (part_000, lines 34-45); the file loader and the
    compiler are the collaborators. *)
Definition NewModuleResolver (goModules : gmap string HostModule) (base : URL)
    : ModuleResolver :=
  {| cache := ∅; goModules := goModules; reverse := []; base := base |}.

End with_collaborators.
End Construction.
Export Construction.

Module Invariants.
Section with_collaborators.
Context {collab : Collaborators}.

(** The address a record pointer holds, if it is not nil. *)
Definition record_address (m : ModuleRecord) : option nat :=
  match m with
  | GoModulePtr p | BaseGoModulePtr p | CjsModulePtr p | SourceTextPtr (Some p) => Some p
  | NilModule | SourceTextPtr None => None
  end.

(** A record pointer that is not nil points to a struct of its own type. *)
Definition points_to (h : gmap nat RecordObject) (m : ModuleRecord) : Prop :=
  match m with
  | NilModule | SourceTextPtr None => True
  | GoModulePtr p => ∃ gm, h !! p = Some (HeapGoModule gm)
  | BaseGoModulePtr p => ∃ bgm, h !! p = Some (HeapBaseGoModule bgm)
  | CjsModulePtr p => ∃ cm, h !! p = Some (HeapCjsModule cm)
  | SourceTextPtr (Some p) => ∃ prg, h !! p = Some (HeapSourceText prg)
  end.

(** The records compiled from source text. *)
Definition is_script (m : ModuleRecord) : bool :=
  match m with
  | CjsModulePtr _ | SourceTextPtr (Some _) => true
  | _ => false
  end.

(** The state of a resolver is consistent when every record of the cache
    and of the reverse map points to a struct of its type, and every
    script record of the cache is in the reverse map, under a locator
    whose text is the record's cache key. *)
Definition resolver_consistent (w : World) : Prop :=
  map_Forall (λ _ c, points_to (heap w) (mce_mod c)) (cache (mr w)) ∧
  Forall (λ entry, points_to (heap w) entry.1) (reverse (mr w)) ∧
  ∀ key c, cache (mr w) !! key = Some c → is_script (mce_mod c) = true →
    ∃ L, assoc_lookup (mce_mod c) (reverse (mr w)) = Some L ∧ url_String L = key.

End with_collaborators.
End Invariants.
Export Invariants.

(** ** More states of the small installation *)

Module Cases.
Import Scenario.
#[local] Existing Instances collaborators interpreter evaluator.

(** The call stack while the body of [/a/sub/c.js], which the main file
    has required, calls [require]. *)
Definition nested_frames : list StackFrame :=
  [native_require; script_frame "file:///a/sub/c.js";
   native_require; script_frame "file:///a/b.js"].

Definition with_frames (fs : list StackFrame) (w : World) : World :=
  set_rt (set_frames fs) w.

(** The main file has required [./sub/c.js]. *)
Definition world_after_c : World :=
  (resolve (collab := collaborators) "file:///a/" "./sub/c.js" world0).2.



End Cases.

(** * Properties *)

(** ** Loops over Go maps *)

Section map_loops.

Lemma fold_left_append_fst {A} (kvs : list (string * A)) (made : list string) :
  fold_left (λ names kv, names ++ [kv.1]) kvs made = made ++ kvs.*1.
Proof.
  revert made. induction kvs as [|kv kvs IH]; intros made; simpl.
  - by rewrite app_nil_r.
  - rewrite IH. by rewrite <- app_assoc.
Qed.

Lemma fold_left_insert_union {A B} (f : A → B) (kvs : list (string * A)) (m0 : gmap string B) :
  NoDup kvs.*1 →
  fold_left (λ m kv, <[kv.1 := f kv.2]> m) kvs m0 = (f <$> list_to_map kvs) ∪ m0.
Proof.
  revert m0. induction kvs as [|[k v] kvs IH]; intros m0 Hnd; simpl.
  - by rewrite fmap_empty, (left_id_L ∅ (∪)).
  - apply NoDup_cons in Hnd as [Hk Hnd]. rewrite IH by done.
    apply (not_elem_of_list_to_map_1 (M := gmap string)) in Hk. simpl in Hk.
    apply map_eq. intros i.
    rewrite !lookup_union, !lookup_fmap.
    destruct (decide (k = i)) as [->|Hne].
    + rewrite Hk, !lookup_insert_eq. by destruct (m0 !! i).
    + rewrite !lookup_insert_ne by done. done.
Qed.

Lemma fold_left_insert_map_to_list {A B} (f : A → B) (m : gmap string A) :
  fold_left (λ acc kv, <[kv.1 := f kv.2]> acc) (map_to_list m) ∅ = f <$> m.
Proof.
  rewrite fold_left_insert_union by apply NoDup_fst_map_to_list.
  by rewrite list_to_map_to_list, (right_id_L ∅ (∪)).
Qed.

Lemma set_objects_insert_id (rt : Runtime) (l : nat) (props : gmap string Value) :
  objects rt !! l = Some props → set_objects (insert l props) rt = rt.
Proof. intros Hl. destruct rt. unfold set_objects. simpl in *. f_equal. by apply insert_id. Qed.

Lemma fold_left_Object_Set (l : nat) (kvs : list (string * GoAny)) (rt : Runtime)
    (props : gmap string Value) :
  objects rt !! l = Some props →
  fold_left (λ r kv, Object_Set (ObjRef l) kv.1 (ToValue kv.2) r) kvs rt
  = set_objects (insert l (fold_left (λ m kv, <[kv.1 := ToValue kv.2]> m) kvs props)) rt.
Proof.
  revert rt props. induction kvs as [|[k v] kvs IH]; intros rt props Hl; simpl.
  - by rewrite set_objects_insert_id.
  - rewrite (IH _ (<[k := ToValue v]> props)).
    + destruct rt. unfold set_objects. simpl in *. f_equal.
      apply map_eq. intros i. destruct (decide (l = i)) as [->|Hne].
      * by rewrite !lookup_insert_eq.
      * rewrite !lookup_insert_ne by done. by rewrite lookup_alter_ne.
    + simpl. rewrite lookup_alter_eq, Hl. done.
Qed.

End map_loops.

(** ** gomodule.go *)

Section go_module.

(** C10.  On the first [Instantiate] of a conforming host module whose
    [Named] mapping has [n > 0] entries, the list of exported names gets
    length [2n]: [n] empty strings, made by [make([]string, len(named))],
    followed by the [n] names appended to them.  [GetExportedNames] returns
    that list from then on, and a later [Instantiate] leaves it alone. *)
Theorem Instantiate_exportedNames_doubled
    (rt : Runtime) (gm : goModule) (vu : VU) (named : gmap string GoAny) :
  vubox rt = Some vu →
  gm_once gm = false →
  Named (mi_Exports (NewModuleInstance (gm_m gm) vu)) = Some named →
  0 < size named →
  ∃ gmi gm',
    GoModule.Instantiate rt gm = (Return gmi, gm') ∧
    length (gm_exportedNames gm') = 2 * size named ∧
    take (size named) (gm_exportedNames gm') = replicate (size named) "" ∧
    drop (size named) (gm_exportedNames gm') = (map_to_list named).*1 ∧
    GoModule.GetExportedNames gm' = (Return (gm_exportedNames gm'), gm') ∧
    ∀ rt', vubox rt' = Some vu →
      GoModule.Instantiate rt' gm' = (Return gmi, gm').
Proof.
  intros Hvu Honce Hnamed Hn.
  unfold GoModule.Instantiate. rewrite Hvu, Honce, Hnamed. simpl.
  eexists _, _. split; [reflexivity|]. simpl.
  rewrite fold_left_append_fst.
  repeat split.
  - rewrite length_app, length_replicate, length_fmap, length_map_to_list. lia.
  - apply take_app_length'. by rewrite length_replicate.
  - apply drop_app_length'. by rewrite length_replicate.
  - intros rt' Hvu'. by rewrite Hvu'.
Qed.


End go_module.

(** ** gomodule_basic.go *)

Section basic_go_module.

(** C9, as the code has it.  Every property of the wrapped value other than
    [default] is a named binding with the property's value; the name
    [default] is bound to the whole wrapped value, whether or not the value
    has a property of that name; the exported names are the keys of the
    wrapped value. *)
Theorem basic_module_bindings
    (rt : Runtime) (bgm bgm' : baseGoModule) (bgmi : basicGoModuleInstance) :
  BasicGoModule.Instantiate rt bgm = (Return bgmi, bgm') →
  ToObject (Some (ToValue (bgm_m bgm))) = Return (bgmi_v bgmi) ∧
  (bgm_once bgm = false → bgm_exportedNames bgm' = Object_Keys rt (bgmi_v bgmi)) ∧
  ∀ rt',
    (∀ n, n ≠ "default" →
       BasicGoModule.GetBindingValue rt' bgmi n = Object_Get rt' (bgmi_v bgmi) n) ∧
    BasicGoModule.GetBindingValue rt' bgmi "default" = Some (VObj (bgmi_v bgmi)).
Proof.
  unfold BasicGoModule.Instantiate.
  destruct (ToObject (Some (ToValue (bgm_m bgm)))) as [o|e|p] eqn:Ho; [|done..].
  intros [= <- <-]. simpl. split; [done|]. split.
  - by intros ->.
  - intros rt'. split; [|done].
    intros n Hn. unfold BasicGoModule.GetBindingValue.
    destruct (String.eqb_spec n "default"); [done|]. done.
Qed.

End basic_go_module.

(** ** part_000: the resolver's cache *)

Section resolver.
Context {collab : Collaborators}.

Ltac munfold :=
  unfold resolve, resolveLoaded, resolveSpecifier, requireModule, cjsModuleFromString,
    ModuleFromAST, cache_store, reverse_store, alloc, log, gets, modify, fail, panic,
    mbind, M_bind, bind, mret, M_ret, ret.

Ltac count_calls :=
  unfold loader_calls, parse_calls, compile_calls, calls; simpl; lia.

(** A hit in the built-in namespace touches nothing. *)
Lemma resolve_builtin_hit (basePWD : URL) (arg : string) (w : World) (c : moduleCacheElement) :
  is_builtin arg = true →
  cache (mr w) !! arg = Some c →
  resolve basePWD arg w = (Return (mce_mod c, mce_err c), w).
Proof. intros Hb Hc. munfold. rewrite Hb. simpl. by rewrite Hc. Qed.

(** A miss in the built-in namespace looks the name up in the table and
    stores the outcome under the name. *)
Lemma resolve_builtin_miss (basePWD : URL) (arg : string) (w : World) :
  is_builtin arg = true →
  cache (mr w) !! arg = None →
  ∃ m err w',
    resolve basePWD arg w = (Return (m, err), w') ∧
    cache (mr w') = <[arg := {| mce_mod := m; mce_err := err |}]> (cache (mr w)) ∧
    trace w' = trace w ++ [EvRequireModule arg] ∧
    (goModules (mr w) !! arg = None → m = NilModule ∧ err = Some (ErrUnknownModule arg)).
Proof.
  intros Hb Hc. munfold. rewrite Hb. simpl. rewrite Hc.
  destruct (goModules (mr w) !! arg) as [[k6m|v]|] eqn:Ht; simpl;
    eexists _, _, _; (split; [reflexivity|]); simpl; repeat split; done.
Qed.

(** A hit outside the built-in namespace canonicalizes the specifier and
    does nothing else. *)
Lemma resolve_file_hit (basePWD : URL) (arg : string) (w : World) (L : URL)
    (c : moduleCacheElement) :
  is_builtin arg = false →
  loader_Resolve basePWD arg = inr L →
  cache (mr w) !! url_String L = Some c →
  resolve basePWD arg w
  = (Return (mce_mod c, mce_err c), add_event (EvResolve basePWD arg) w).
Proof. intros Hb HL Hc. munfold. rewrite Hb. simpl. rewrite HL. simpl. by rewrite Hc. Qed.

(** A miss outside the built-in namespace loads the file once, parses it
    at most once, compiles it at most once, and stores the outcome under
    the canonical locator. *)
Lemma resolve_file_miss (basePWD : URL) (arg : string) (w : World) (L : URL) :
  is_builtin arg = false →
  loader_Resolve basePWD arg = inr L →
  cache (mr w) !! url_String L = None →
  ∃ m err w' evs,
    resolve basePWD arg w = (Return (m, err), w') ∧
    cache (mr w') = <[url_String L := {| mce_mod := m; mce_err := err |}]> (cache (mr w)) ∧
    trace w' = trace w ++ EvResolve basePWD arg :: EvLoad L arg :: evs ∧
    loader_calls evs = 0 ∧ (parse_calls evs ≤ 1)%nat ∧ (compile_calls evs ≤ 1)%nat ∧
    (∀ e, loadCJS L arg = inl e → m = NilModule ∧ err = Some e) ∧
    (∀ data e, loadCJS L arg = inr data →
       compiler_Parse (string_of_list_byte data) (url_String L) false = inl e →
       m = NilModule ∧ err = Some e) ∧
    (∀ data prg e, loadCJS L arg = inr data →
       compiler_Parse (string_of_list_byte data) (url_String L) false = inr (prg, false) →
       compiler_Compile (string_of_list_byte data) (url_String L) false = inl e →
       m = NilModule ∧ err = Some e) ∧
    (∀ data prg e, loadCJS L arg = inr data →
       compiler_Parse (string_of_list_byte data) (url_String L) false = inr (prg, true) →
       goja_ModuleFromAST prg = Some e →
       m = SourceTextPtr None ∧ err = Some e).
Proof.
  intros Hb HL Hc. munfold. rewrite Hb. simpl. rewrite HL. simpl. rewrite Hc.
  destruct (loadCJS L arg) as [e|data] eqn:Hload; simpl.
  { eexists _, _, _, []. split; [reflexivity|]. simpl.
    rewrite <- !app_assoc. simpl. repeat split; try done; try count_calls.
    all: intros; simplify_eq; congruence. }
  simpl. rewrite ?HL. simpl. rewrite ?Hc.
  destruct (compiler_Parse _ _ _) as [e|[prg [|]]] eqn:Hparse; simpl.
  - eexists _, _, _, [_; _]. split; [reflexivity|]. simpl.
    rewrite <- !app_assoc. simpl. repeat split; try done; try count_calls.
    all: intros; simplify_eq; congruence.
  - destruct (goja_ModuleFromAST prg) as [e|] eqn:Hast; simpl.
    + eexists _, _, _, [_; _]. split; [reflexivity|]. simpl.
      rewrite <- !app_assoc. simpl. repeat split; try done; try count_calls.
      all: intros; simplify_eq; congruence.
    + eexists _, _, _, [_; _]. split; [reflexivity|]. simpl.
      rewrite <- !app_assoc. simpl. repeat split; try done; try count_calls.
      all: intros; simplify_eq; congruence.
  - destruct (compiler_Compile _ _ _) as [e|pgm] eqn:Hcomp; simpl.
    + eexists _, _, _, [_; _; _]. split; [reflexivity|]. simpl.
      rewrite <- !app_assoc. simpl. repeat split; try done; try count_calls.
      all: intros; simplify_eq; congruence.
    + eexists _, _, _, [_; _; _]. split; [reflexivity|]. simpl.
      rewrite <- !app_assoc. simpl. repeat split; try done; try count_calls.
      all: intros; simplify_eq; congruence.
Qed.

Lemma cached_element_eta (c : moduleCacheElement) (m : ModuleRecord) (err : option error) :
  (mce_mod c, mce_err c) = (m, err) → c = {| mce_mod := m; mce_err := err |}.
Proof. destruct c. simpl. by intros [= -> ->]. Qed.

Lemma calls_app (p : Event → bool) (evs1 evs2 : list Event) :
  calls p (evs1 ++ evs2) = calls p evs1 + calls p evs2.
Proof. unfold calls. by rewrite List.filter_app, length_app. Qed.

(** X21.  A built-in name is its own key, whatever the base: resolving it
    twice returns the same record, or the same error, and looks the table
    up at most once; the loader and the compiler are not called. *)
Lemma builtin_name_same_record (baseA baseB : URL) (name : string) (w : World) :
  is_builtin name = true →
  ∃ m err wA evs,
    resolve baseA name w = (Return (m, err), wA) ∧
    resolve baseB name wA = (Return (m, err), wA) ∧
    trace wA = trace w ++ evs ∧
    (calls is_table_lookup evs ≤ 1)%nat ∧ loader_calls evs = 0 ∧ compiler_calls evs = 0.
Proof.
  intros Hb. destruct (cache (mr w) !! name) as [c|] eqn:Hc.
  - exists (mce_mod c), (mce_err c), w, [].
    rewrite !(resolve_builtin_hit _ _ _ c Hb Hc), app_nil_r.
    repeat split; try done; try (unfold calls; simpl; lia).
  - destruct (resolve_builtin_miss baseA name w Hb Hc)
      as (m & err & wA & Hres & Hcache & Htrace & _).
    exists m, err, wA, [EvRequireModule name].
    assert (Hc' : cache (mr wA) !! name = Some {| mce_mod := m; mce_err := err |})
      by (rewrite Hcache; apply lookup_insert_eq).
    rewrite (resolve_builtin_hit _ _ _ _ Hb Hc').
    repeat split; try done; try (unfold calls; simpl; lia).
Qed.

(** C1, as the code has it.  Two specifiers outside the built-in namespace
    that canonicalize to the same locator, from whatever bases: resolving
    the first and then the second returns the same record, or the same
    error, both times, the one stored in the cache under the locator; the
    second resolution only canonicalizes its specifier.  Over both
    resolutions the file loader is called at most once, the compiler's
    [Parse] at most once and the compiler's [Compile] at most once; when
    the locator was in the cache before, its entry is returned and neither
    the loader nor the compiler is called. *)
Theorem same_locator_same_record
    (baseA baseB : URL) (A B : string) (L : URL) (w : World) :
  is_builtin A = false →
  is_builtin B = false →
  loader_Resolve baseA A = inr L →
  loader_Resolve baseB B = inr L →
  ∃ m err wA evs,
    resolve baseA A w = (Return (m, err), wA) ∧
    cache (mr wA) !! url_String L = Some {| mce_mod := m; mce_err := err |} ∧
    resolve baseB B wA = (Return (m, err), add_event (EvResolve baseB B) wA) ∧
    trace (add_event (EvResolve baseB B) wA) = trace w ++ evs ∧
    (loader_calls evs ≤ 1)%nat ∧
    (parse_calls evs ≤ 1)%nat ∧
    (compile_calls evs ≤ 1)%nat ∧
    (∀ c, cache (mr w) !! url_String L = Some c →
       m = mce_mod c ∧ err = mce_err c ∧ loader_calls evs = 0 ∧ compiler_calls evs = 0).
Proof.
  intros HbA HbB HA HB.
  destruct (cache (mr w) !! url_String L) as [c|] eqn:Hc.
  - exists (mce_mod c), (mce_err c), (add_event (EvResolve baseA A) w),
      [EvResolve baseA A; EvResolve baseB B].
    assert (Hc' : cache (mr (add_event (EvResolve baseA A) w)) !! url_String L
                  = Some {| mce_mod := mce_mod c; mce_err := mce_err c |})
      by (simpl; rewrite Hc; by destruct c).
    split; [by apply (resolve_file_hit _ _ _ L)|]. split; [done|].
    split; [by rewrite (resolve_file_hit _ _ _ L _ HbB HB Hc')|].
    split; [simpl; by rewrite <- app_assoc|].
    repeat split; try count_calls; try (by simplify_eq).
    all: unfold compiler_calls; count_calls.
  - destruct (resolve_file_miss baseA A w L HbA HA Hc)
      as (m & err & wA & evs & Hres & Hcache & Htrace & Hl & Hp & Hcm & _).
    assert (Hc' : cache (mr wA) !! url_String L = Some {| mce_mod := m; mce_err := err |})
      by (rewrite Hcache; apply lookup_insert_eq).
    exists m, err, wA, (EvResolve baseA A :: EvLoad L A :: evs ++ [EvResolve baseB B]).
    split; [done|]. split; [done|].
    split; [by rewrite (resolve_file_hit _ _ _ L _ HbB HB Hc')|].
    split; [simpl; rewrite Htrace, <- app_assoc; done|].
    unfold loader_calls, parse_calls, compile_calls in *.
    change (EvResolve baseA A :: EvLoad L A :: evs ++ [EvResolve baseB B])
      with ([EvResolve baseA A; EvLoad L A] ++ evs ++ [EvResolve baseB B]).
    rewrite !calls_app.
    repeat split; try (unfold calls in *; simpl; lia); congruence.
Qed.

(** C3, as the code has it.  A specifier that has a cache key (a built-in
    name, or a specifier that canonicalizes) and whose resolution fails,
    be it for an unknown built-in name, a load failure or a compile
    failure: the error is stored in the cache under that key, and as long
    as the entry is there a resolution of the specifier returns the same
    error without calling the loader, the compiler or the built-in table.
    Outside the built-in namespace it canonicalizes the specifier again. *)
Theorem failed_resolution_cached
    (basePWD : URL) (arg key : string) (w w1 : World) (m : ModuleRecord) (e : error) :
  cache_key basePWD arg = Some key →
  resolve basePWD arg w = (Return (m, Some e), w1) →
  cache (mr w1) !! key = Some {| mce_mod := m; mce_err := Some e |} ∧
  ∀ w', cache (mr w') !! key = Some {| mce_mod := m; mce_err := Some e |} →
    resolve basePWD arg w'
    = (Return (m, Some e),
       if is_builtin arg then w' else add_event (EvResolve basePWD arg) w').
Proof.
  unfold cache_key. intros Hkey Hres.
  destruct (is_builtin arg) eqn:Hb.
  - injection Hkey as <-. split.
    + destruct (cache (mr w) !! arg) as [c|] eqn:Hc.
      * rewrite (resolve_builtin_hit _ _ _ c Hb Hc) in Hres.
        injection Hres as Hc1 Hc2 <-. rewrite Hc. f_equal.
        apply cached_element_eta. congruence.
      * destruct (resolve_builtin_miss basePWD arg w Hb Hc)
          as (m' & err' & w' & Hres' & Hcache & _).
        rewrite Hres' in Hres. injection Hres as -> -> ->.
        rewrite Hcache. apply lookup_insert_eq.
    + intros w' Hc'. by rewrite (resolve_builtin_hit _ _ _ _ Hb Hc').
  - destruct (loader_Resolve basePWD arg) as [?|L] eqn:HL; [done|].
    injection Hkey as <-. split.
    + destruct (cache (mr w) !! url_String L) as [c|] eqn:Hc.
      * rewrite (resolve_file_hit _ _ _ L c Hb HL Hc) in Hres.
        injection Hres as Hc1 Hc2 <-. simpl. rewrite Hc. f_equal.
        apply cached_element_eta. congruence.
      * destruct (resolve_file_miss basePWD arg w L Hb HL Hc)
          as (m' & err' & w' & evs & Hres' & Hcache & _).
        rewrite Hres' in Hres. injection Hres as -> -> ->.
        rewrite Hcache. apply lookup_insert_eq.
    + intros w' Hc'. by rewrite (resolve_file_hit _ _ _ L _ Hb HL Hc').
Qed.

(** The kinds of failure the cache keeps: an unknown built-in name, a file
    that does not load, a text that does not parse, a factory module that
    does not compile, a graph module the engine rejects. *)
Lemma resolution_failures (basePWD : URL) (arg : string) (w : World) :
  (is_builtin arg = true → cache (mr w) !! arg = None → goModules (mr w) !! arg = None →
     (resolve basePWD arg w).1 = Return (NilModule, Some (ErrUnknownModule arg))) ∧
  (∀ L, is_builtin arg = false → loader_Resolve basePWD arg = inr L →
     cache (mr w) !! url_String L = None →
     (∀ e, loadCJS L arg = inl e →
        (resolve basePWD arg w).1 = Return (NilModule, Some e)) ∧
     (∀ data e, loadCJS L arg = inr data →
        compiler_Parse (string_of_list_byte data) (url_String L) false = inl e →
        (resolve basePWD arg w).1 = Return (NilModule, Some e)) ∧
     (∀ data prg e, loadCJS L arg = inr data →
        compiler_Parse (string_of_list_byte data) (url_String L) false = inr (prg, false) →
        compiler_Compile (string_of_list_byte data) (url_String L) false = inl e →
        (resolve basePWD arg w).1 = Return (NilModule, Some e)) ∧
     (∀ data prg e, loadCJS L arg = inr data →
        compiler_Parse (string_of_list_byte data) (url_String L) false = inr (prg, true) →
        goja_ModuleFromAST prg = Some e →
        (resolve basePWD arg w).1 = Return (SourceTextPtr None, Some e))).
Proof.
  split.
  - intros Hb Hc Ht.
    destruct (resolve_builtin_miss basePWD arg w Hb Hc) as (m & err & w' & -> & _ & _ & Hu).
    destruct (Hu Ht) as [-> ->]. done.
  - intros L Hb HL Hc.
    destruct (resolve_file_miss basePWD arg w L Hb HL Hc)
      as (m & err & w' & evs & -> & _ & _ & _ & _ & _ & H1 & H2 & H3 & H4).
    simpl. repeat split.
    + intros e He. by destruct (H1 e He) as [-> ->].
    + intros data e Hd He. by destruct (H2 data e Hd He) as [-> ->].
    + intros data prg e Hd Hp He. by destruct (H3 data prg e Hd Hp He) as [-> ->].
    + intros data prg e Hd Hp He. by destruct (H4 data prg e Hd Hp He) as [-> ->].
Qed.

(** A specifier that does not canonicalize leaves no trace in the cache. *)
Lemma resolve_malformed (basePWD : URL) (arg : string) (w : World) (e : error) :
  is_builtin arg = false →
  loader_Resolve basePWD arg = inl e →
  resolve basePWD arg w = (Return (NilModule, Some e), add_event (EvResolve basePWD arg) w).
Proof. intros Hb HL. munfold. rewrite Hb. simpl. by rewrite HL. Qed.

End resolver.

(** ** part_001: the legacy require *)

Section legacy_require.
Context {collab : Collaborators} {engine : Evaluator}.

Ltac munfold :=
  unfold resolve, resolveLoaded, resolveSpecifier, requireModule, cjsModuleFromString,
    ModuleFromAST, cache_store, reverse_store, alloc, log, gets, modify, fail, panic,
    lift_outcome, mbind, M_bind, bind, mret, M_ret, ret.

(** The resolver neither reads nor writes the directory the legacy require
    tracks, and does not touch the runtime. *)
Lemma resolve_keeps_pwd (basePWD : URL) (arg : string) (w : World) :
  currentlyRequiredModule (resolve basePWD arg w).2 = currentlyRequiredModule w ∧
  rt (resolve basePWD arg w).2 = rt w.
Proof. munfold. repeat (case_match; simpl in *; simplify_eq; try done). Qed.

Lemma gojaModuleResolver_keeps_pwd (m : ModuleRecord) (specifier : string) (w : World) :
  currentlyRequiredModule (gojaModuleResolver m specifier w).2 = currentlyRequiredModule w ∧
  rt (gojaModuleResolver m specifier w).2 = rt w.
Proof.
  unfold gojaModuleResolver, reversePath.
  unfold gets, panic, mbind, M_bind, bind, mret, M_ret, ret. simpl.
  repeat (case_match; simpl in *; simplify_eq; try done); apply resolve_keeps_pwd.
Qed.

Lemma resolveRequired_keeps_pwd (specifier : string) (w : World) :
  currentlyRequiredModule (resolveRequired specifier w).2 = currentlyRequiredModule w.
Proof.
  unfold resolveRequired.
  unfold log, gets, modify, fail, panic, lift_outcome, mbind, M_bind, bind, mret, M_ret, ret.
  simpl.
  destruct (getCurrentModuleScript (rt w)) as [s1| |]; simpl; try done.
  destruct (getPreviousRequiringFile (rt w)) as [s2| |]; simpl; try done.
  destruct (negb (String.eqb s1 s2)); simpl.
  - match goal with |- context [gojaModuleResolver NilModule s2 ?w0] =>
      pose proof (gojaModuleResolver_keeps_pwd NilModule s2 w0) as [Hp _];
      destruct (gojaModuleResolver NilModule s2 w0) as [[[pm pe]| |] wp] end;
      simpl in *; try done.
    pose proof (gojaModuleResolver_keeps_pwd pm specifier wp) as [Hq _].
    destruct (gojaModuleResolver pm specifier wp) as [[[m [e|]]| |] wq]; simpl in *; congruence.
  - match goal with |- context [gojaModuleResolver NilModule s1 ?w0] =>
      pose proof (gojaModuleResolver_keeps_pwd NilModule s1 w0) as [Hp _];
      destruct (gojaModuleResolver NilModule s1 w0) as [[[pm pe]| |] wp] end;
      simpl in *; try done.
    pose proof (gojaModuleResolver_keeps_pwd pm specifier wp) as [Hq _].
    destruct (gojaModuleResolver pm specifier wp) as [[[m [e|]]| |] wq]; simpl in *; congruence.
Qed.

Lemma Require_unfold (depth : nat) (specifier : string) :
  Require depth specifier
  = Require_step (match depth with
                  | O => λ _, panic (PanicMsg "stack overflow")
                  | S d => Require d
                  end) specifier.
Proof. by destruct depth. Qed.


(** C7, as the code has it.  A call with the empty specifier always ends
    in an error and changes nothing but the record of calls: it first
    resolves the empty specifier against the tracked directory, returns
    the loader's error if that fails and its own empty-specifier error
    otherwise, and in both cases leaves the resolver, the records, the
    runtime and the tracked directory as they were, without resolving a
    module, loading, compiling or evaluating anything. *)
Theorem Require_empty_specifier (depth : nat) (w : World) :
  Require depth "" w
  = (Error match loader_Resolve (currentlyRequiredModule w) "" with
           | inl err => err
           | inr _ => ErrEmptySpecifier
           end,
     add_event (EvResolve (currentlyRequiredModule w) "") w).
Proof.
  rewrite Require_unfold. unfold Require_step, trackCurrentlyRequired, requireResolved.
  unfold with_defer. munfold. simpl.
  destruct (loader_Resolve (currentlyRequiredModule w) "") as [err|fileURL]; simpl.
  - reflexivity.
  - reflexivity.
Qed.

(** *** The tracked directory between nested calls *)

Lemma keeps_directory_bind {A B} (m : M A) (k : A → M B) :
  keeps_directory m → (∀ a, keeps_directory (k a)) → keeps_directory (m ≫= k).
Proof.
  intros Hm Hk w. unfold mbind, M_bind, bind. specialize (Hm w).
  destruct (m w) as [[a|e|p] w']; simpl in *; [|done..].
  by rewrite Hk.
Qed.

Lemma with_defer_restores {A} (u : URL) (body : M A) (w : World) :
  currentlyRequiredModule (with_defer (set_currentlyRequiredModule u) body w).2 = u.
Proof. unfold with_defer. by destruct (body w). Qed.

Lemma keeps_directory_pure {A} (o : Outcome A) : keeps_directory (lift_outcome o).
Proof. done. Qed.

Lemma keeps_directory_gets {A} (f : World → A) : keeps_directory (gets f).
Proof. done. Qed.

Lemma keeps_directory_attempt {A} (m : M A) :
  keeps_directory m → keeps_directory (attempt m).
Proof. intros Hm w. unfold attempt. specialize (Hm w). by destruct (m w) as [[a|e|p] w']. Qed.

Lemma keeps_directory_modify (f : World → World) :
  (∀ w, currentlyRequiredModule (f w) = currentlyRequiredModule w) →
  keeps_directory (modify f).
Proof. intros Hf w. apply Hf. Qed.

Lemma keeps_directory_with_defer {A} (deferred : World → World) (body : M A) :
  (∀ w, currentlyRequiredModule (deferred w) = currentlyRequiredModule w) →
  keeps_directory body → keeps_directory (with_defer deferred body).
Proof.
  intros Hf Hb w. unfold with_defer. specialize (Hb w).
  destruct (body w) as [r w']. simpl in *. by rewrite Hf.
Qed.

Lemma keeps_directory_resolveRequired (specifier : string) :
  keeps_directory (resolveRequired specifier).
Proof. intros w. apply resolveRequired_keeps_pwd. Qed.

Section engine_keeps_directory.

(** The tracked directory is a field of [LegacyRequireImpl] that only
    [Require] assigns: the engine changes it through the [require] calls of
    the script code it runs, and in no other way. *)
Hypothesis Link_keeps_directory : ∀ p, keeps_directory (SourceText_Link p).
Hypothesis Evaluate_keeps_directory :
  ∀ require m, (∀ specifier, keeps_directory (require specifier)) →
    keeps_directory (CyclicModuleRecordEvaluate require m).

Lemma keeps_directory_Link (m : ModuleRecord) : keeps_directory (Link m).
Proof. destruct m as [| | | |[p|]]; try done. apply Link_keeps_directory. Qed.

Lemma keeps_directory_getModuleInstanceFromGoModule
    (require : string → M (option Object)) (p : nat) :
  (∀ specifier, keeps_directory (require specifier)) →
  keeps_directory (getModuleInstanceFromGoModule require p).
Proof.
  intros Hreq. unfold getModuleInstanceFromGoModule.
  apply keeps_directory_bind; [done|]. intros mi.
  apply keeps_directory_bind.
  - destruct mi; [done|].
    apply keeps_directory_bind; [apply keeps_directory_Link|]. intros [e|]; [done|].
    apply keeps_directory_bind; [by apply Evaluate_keeps_directory|]. intros promise.
    apply keeps_directory_bind.
    + destruct promise as [| |result]; try done.
      apply keeps_directory_bind; [done|]. done.
    + by intros [e|].
  - intros [[gmi| | |]|]; done.
Qed.

Lemma keeps_directory_requireResolved
    (require : string → M (option Object)) (specifier : string) :
  (∀ specifier', keeps_directory (require specifier')) →
  keeps_directory (requireResolved require specifier).
Proof.
  intros Hreq. unfold requireResolved.
  destruct (String.eqb specifier ""); [done|].
  apply keeps_directory_bind; [apply keeps_directory_resolveRequired|]. intros m.
  assert (Hscript : keeps_directory (requireScriptModule require m)).
  { unfold requireScriptModule.
    apply keeps_directory_bind; [apply keeps_directory_Link|]. intros [e|]; [done|].
    apply keeps_directory_bind.
    { destruct (is_CyclicModuleRecord m); [by apply Evaluate_keeps_directory|done]. }
    intros promise. apply keeps_directory_bind.
    { destruct promise as [| |result]; try done.
      apply keeps_directory_bind; [done|]. done. }
    intros [e|]; [done|]. destruct m; try done.
    apply keeps_directory_bind; [done|]. by intros [[| |cmi|]|]. }
  destruct m; try done.
  unfold requireGoModule.
  apply keeps_directory_bind; [by apply keeps_directory_getModuleInstanceFromGoModule|].
  intros gmi. apply keeps_directory_bind; [done|]. done.
Qed.

(** Every call of [Require], nested calls included, leaves the tracked
    directory as it found it.  Between the [require] calls the script code
    of a module makes, the directory is therefore the one the call that
    loaded the module has set. *)
Lemma Require_keeps_directory (depth : nat) (specifier : string) :
  keeps_directory (Require depth specifier).
Proof.
  revert specifier. induction depth as [|d IH]; intros specifier w.
  - simpl. unfold Require_step, gets, mbind, M_bind, bind at 1. simpl.
    destruct (negb (is_builtin specifier)).
    + apply with_defer_restores.
    + by apply keeps_directory_requireResolved.
  - simpl. unfold Require_step, gets, mbind, M_bind, bind at 1. simpl.
    destruct (negb (is_builtin specifier)).
    + apply with_defer_restores.
    + by apply keeps_directory_requireResolved.
Qed.

End engine_keeps_directory.

(** *** Evaluations that stay pending *)

(** The root run panics on a pending promise (lines 210-217). *)
Lemma RunSourceData_pending
    (require : string → M (option Object)) (source : SourceData)
    (w w1 w2 w3 w4 : World) (m0 m : ModuleRecord) :
  resolveLoaded (url_JoinPath (sd_URL source) "../") (url_String (sd_URL source))
                (sd_Data source) w = (Return (m0, None), w1) →
  resolve (url_JoinPath (sd_URL source) "../") (url_String (sd_URL source)) w1
  = (Return (m, None), w2) →
  Link m w2 = (Return None, w3) →
  is_CyclicModuleRecord m = true →
  CyclicModuleRecordEvaluate require m w3 = (Return PromiseStatePending, w4) →
  RunSourceData require source w
  = (Panic (PanicMsg "TLA not supported in k6 at the moment"), w4).
Proof.
  intros H1 H2 H3 H4 H5. unfold RunSourceData.
  unfold mbind, M_bind, bind. rewrite H1. simpl. rewrite H2. simpl.
  rewrite H3. simpl. rewrite H4. simpl. rewrite H5. done.
Qed.

(** So does the require of a conforming host module (lines 120-126). *)
Lemma getModuleInstanceFromGoModule_pending
    (require : string → M (option Object)) (p : nat) (w w1 : World) :
  GetModuleInstance (rt w) (GoModulePtr p) = None →
  CyclicModuleRecordEvaluate require (GoModulePtr p) w = (Return PromiseStatePending, w1) →
  getModuleInstanceFromGoModule require p w
  = (Panic (PanicMsg "TLA in go modules is not supported in k6 at the moment"), w1).
Proof.
  intros H1 H2. unfold getModuleInstanceFromGoModule.
  unfold gets, mbind, M_bind, bind, mret, M_ret, ret. simpl. rewrite H1. simpl.
  rewrite H2. done.
Qed.

(** The require of any other record does not: the [default] case of its
    switch is empty (lines 95-100), and the call goes on to return the
    exports of the factory module, or the namespace of the graph module. *)
Lemma requireScriptModule_pending
    (require : string → M (option Object)) (m : ModuleRecord) (w w1 w2 : World) :
  Link m w = (Return None, w1) →
  is_CyclicModuleRecord m = true →
  CyclicModuleRecordEvaluate require m w1 = (Return PromiseStatePending, w2) →
  requireScriptModule require m w
  = match m with
    | CjsModulePtr _ =>
        match GetModuleInstance (rt w2) m with
        | Some (InstCjs cmi) => (Return (cmi_exports cmi), w2)
        | _ => (Panic PanicTypeAssertion, w2)
        end
    | _ => (Return (Some (ObjNamespace m)), w2)
    end.
Proof.
  intros H1 H2 H3. unfold requireScriptModule.
  unfold gets, mbind, M_bind, bind, mret, M_ret, ret.
  rewrite H1. simpl. rewrite H2. rewrite H3. simpl.
  destruct m; try done.
  by repeat case_match.
Qed.

(** *** The exports of a conforming host module *)

Lemma toESModuleExports_cases (exp : Exports) :
  (Named exp = None → toESModuleExports exp = Default exp) ∧
  (∀ named, Named exp = Some named → Default exp = AnyNil →
     toESModuleExports exp = AnyMap named) ∧
  (∀ named, Named exp = Some named → Default exp ≠ AnyNil →
     toESModuleExports exp
     = AnyMap (<["__esModule" := AnyBool true]> (<["default" := Default exp]> named))).
Proof.
  unfold toESModuleExports. repeat split.
  - by intros ->.
  - by intros named -> ->.
  - intros named -> Hd.
    destruct (Default exp) eqn:Hdef; try done; simpl.
    all: pose proof (fold_left_insert_map_to_list id named) as Hf;
      rewrite map_fmap_id in Hf; simpl in Hf; unfold id in Hf; by rewrite Hf.
Qed.

Lemma getModuleInstanceFromGoModule_Return
    (require : string → M (option Object)) (p : nat) (w w' : World) (gmi : goModuleInstance) :
  getModuleInstanceFromGoModule require p w = (Return gmi, w') →
  GetModuleInstance (rt w') (GoModulePtr p) = Some (InstGoModule gmi).
Proof.
  unfold getModuleInstanceFromGoModule.
  unfold gets, fail, panic, lift_outcome, mbind, M_bind, bind, mret, M_ret, ret. simpl.
  intros Hret.
  repeat (case_match; simpl in *; simplify_eq); done.
Qed.

(** C8, as the code has it.  A call that resolves its specifier to a
    conforming host module and returns: the object returned wraps the
    value [toESModuleExports] makes of the [Exports] of the module's
    instance in the runtime.  That value is the [Default] when there is no
    [Named] mapping, the [Named] mapping when there is no [Default], and
    otherwise a map made of the [Named] entries, then the key [default]
    set to the [Default], then the key [__esModule] set to true, so that a
    [Named] entry under one of these two keys is overwritten. *)
Theorem Require_host_module_bridged
    (depth : nat) (specifier : string) (w w0 w1 w2 : World) (p : nat) (o : option Object) :
  (if is_builtin specifier then mret tt else trackCurrentlyRequired specifier) w
  = (Return tt, w0) →
  resolveRequired specifier w0 = (Return (GoModulePtr p), w1) →
  Require depth specifier w = (Return o, w2) →
  ∃ gmi obj,
    GetModuleInstance (rt w2) (GoModulePtr p) = Some (InstGoModule gmi) ∧
    o = Some obj ∧
    ToObject (Some (ToValue (toESModuleExports (mi_Exports (gmi_mi gmi))))) = Return obj ∧
    let exp := mi_Exports (gmi_mi gmi) in
    (Named exp = None → toESModuleExports exp = Default exp) ∧
    (∀ named, Named exp = Some named → Default exp = AnyNil →
       obj = ObjHost (AnyMap named)) ∧
    (∀ named, Named exp = Some named → Default exp ≠ AnyNil →
       obj = ObjHost (AnyMap (<["__esModule" := AnyBool true]>
                                (<["default" := Default exp]> named)))).
Proof.
  intros Hin Hres Hret.
  set (nested := match depth with
                 | O => λ _, panic (PanicMsg "stack overflow")
                 | S d => Require d
                 end).
  assert (Hhost : ∃ w', requireGoModule nested p w1 = (Return o, w') ∧ rt w2 = rt w').
  { rewrite Require_unfold in Hret. fold nested in Hret.
    unfold Require_step, requireResolved in Hret.
    unfold with_defer, gets, fail, mbind, M_bind, bind, mret, M_ret, ret in Hret, Hin.
    simpl in Hret.
    destruct (is_builtin specifier); simpl in Hret.
    - injection Hin as <-.
      destruct (String.eqb specifier ""); [done|].
      rewrite Hres in Hret. eauto.
    - rewrite Hin in Hret.
      destruct (String.eqb specifier ""); [done|].
      rewrite Hres in Hret.
      destruct (requireGoModule nested p w1) as [r w'] eqn:Hg.
      injection Hret as -> <-. eauto. }
  destruct Hhost as (w' & Hg & Hrt). rewrite Hrt. clear Hret Hrt.
  unfold requireGoModule in Hg.
  unfold lift_outcome, mbind, M_bind, bind, mret, M_ret, ret in Hg.
  destruct (getModuleInstanceFromGoModule nested p w1) as [[gmi| |] wg] eqn:Hgmi; try done.
  destruct (ToObject _) as [obj| |] eqn:Hobj; try done.
  injection Hg as <- <-.
  exists gmi, obj.
  split; [by apply (getModuleInstanceFromGoModule_Return nested p w1)|].
  split; [done|]. split; [done|].
  destruct (toESModuleExports_cases (mi_Exports (gmi_mi gmi))) as (H1 & H2 & H3).
  simpl. split; [done|]. split.
  - intros named Hn Hd. rewrite (H2 named Hn Hd) in Hobj. simpl in Hobj. congruence.
  - intros named Hn Hd. rewrite (H3 named Hn Hd) in Hobj. simpl in Hobj. congruence.
Qed.

End legacy_require.

(** ** part_001, second file: the exports of a factory module *)

Section cjs_module.
Context {collab : Collaborators} {interp : Interpreter}.

(** X22.  What [ExecuteModule] does with the value it reads back from
    [module.exports] once the factory body has returned: null is the error
    "exports must be an object"; undefined is not caught by the test and
    reaches [ToObject], which throws; a property that was deleted is a nil
    value, on which the call panics; anything else becomes the exports. *)
Lemma ExecuteModule_reads_back
    (require : string → M (option Object)) (cmi : cjsModuleInstance) (cm : cjsModule)
    (w w1 wa wb w3 : World) (v r : Value) (call : nat) (module exports : Object) :
  heap w !! cmi_w cmi = Some (HeapCjsModule cm) →
  RunProgram (cm_prg cm) w = (Return v, w1) →
  AssertFunction v = Some call →
  Cjs.new_object w1 = (Return module, wa) →
  Cjs.new_object wa = (Return exports, wb) →
  CallFunction require call (VObj exports) [VObj module; VObj exports]
    (set_rt (Object_Set module "exports" (VObj exports)) wb) = (Return r, w3) →
  match Object_Get (rt w3) module "exports" with
  | Some VNull =>
      Cjs.ExecuteModule require cmi w
      = (Return ({| cmi_exports := Some exports; cmi_w := cmi_w cmi;
                    cmi_isEsModuleMarked := cmi_isEsModuleMarked cmi |},
                 Some ErrExportsMustBeObject), w3)
  | Some VUndefined =>
      Cjs.ExecuteModule require cmi w
      = (Panic (PanicTypeError "Cannot convert undefined or null to object"), w3)
  | None => Cjs.ExecuteModule require cmi w = (Panic PanicNilDeref, w3)
  | Some final =>
      ∃ o cmi' w4,
        ToObject (Some final) = Return o ∧
        Cjs.ExecuteModule require cmi w = (Return (cmi', None), w4) ∧
        cmi_exports cmi' = Some o
  end.
Proof.
  intros Hheap Hrun Hfun Hmod Hexp Hcall.
  unfold Cjs.ExecuteModule.
  unfold attempt, gets, modify, panic, lift_outcome, mbind, M_bind, bind, mret, M_ret, ret.
  cbv beta. rewrite Hheap, Hrun. cbv beta iota. rewrite Hmod. cbv beta iota.
  rewrite Hexp. cbv beta iota. rewrite Hfun, Hcall. cbv beta iota.
  unfold Cjs.set_exportedNames_once, modify.
  destruct (Object_Get (rt w3) module "exports") as [[| |pr|o]|] eqn:Hget; simpl; try done.
  - eexists _, _, _. repeat split; reflexivity.
  - eexists _, _, _. repeat split; reflexivity.
Qed.

(** [ExecuteModule] changes the tracked directory only through the script
    code it runs. *)
Lemma keeps_directory_ExecuteModule
    (require : string → M (option Object)) (cmi : cjsModuleInstance) :
  (∀ prg, keeps_directory (RunProgram prg)) →
  (∀ f this args, keeps_directory (CallFunction require f this args)) →
  keeps_directory (Cjs.ExecuteModule require cmi).
Proof.
  intros Hrun Hcall. unfold Cjs.ExecuteModule.
  apply keeps_directory_bind; [done|]. intros h.
  destruct (h !! cmi_w cmi) as [[| |cm|]|]; try done.
  apply keeps_directory_bind; [by apply keeps_directory_attempt|]. intros [err|v]; [done|].
  assert (Hnew : keeps_directory Cjs.new_object).
  { intros w. unfold Cjs.new_object. by destruct (NewObject (rt w)). }
  apply keeps_directory_bind; [done|]. intros module.
  apply keeps_directory_bind; [done|]. intros exports.
  apply keeps_directory_bind; [by apply keeps_directory_modify|]. intros _.
  destruct (AssertFunction v) as [call|]; [|done].
  apply keeps_directory_bind; [by apply keeps_directory_attempt|]. intros [err|r]; [done|].
  apply keeps_directory_bind; [done|]. intros exportsV.
  destruct (IsNull exportsV); [done|].
  apply keeps_directory_bind; [done|]. intros o.
  apply keeps_directory_bind.
  { intros w. unfold Cjs.set_exportedNames_once, modify. simpl.
    by repeat case_match. }
  intros _. apply keeps_directory_bind; [done|]. done.
Qed.

End cjs_module.

(** ** The properties on the small installation *)

Section on_scenario.
Import Scenario.
#[local] Existing Instances collaborators interpreter evaluator.
#[local] Canonical Structure collaborators.

(** Two specifiers for [/a/sub/c.js], from two bases. *)
Lemma same_locator_same_record_witness :
  ∃ m err wA,
    resolve "file:///a/" "./sub/c.js" world0 = (Return (m, err), wA) ∧
    cache (mr wA) !! "file:///a/sub/c.js" = Some {| mce_mod := m; mce_err := err |} ∧
    resolve "file:///a/sub/" "./c.js" wA
    = (Return (m, err), add_event (EvResolve "file:///a/sub/" "./c.js") wA).
Proof.
  destruct (same_locator_same_record "file:///a/" "file:///a/sub/" "./sub/c.js" "./c.js"
              "file:///a/sub/c.js" world0)
    as (m & err & wA & evs & H1 & H2 & H3 & _); [reflexivity..|].
  exists m, err, wA. split; [exact H1|]. split; [exact H2|exact H3].
Defined.

(** Counterexample to C1, on the count of compiler calls: resolving the
    factory module [/a/sub/c.js] under two specifiers returns the same
    record twice, and calls the compiler twice, once to parse and once to
    compile, both during the first resolution. *)
Lemma factory_module_compiler_called_twice :
  (resolve "file:///a/" "./sub/c.js" world0).1 = Return (CjsModulePtr 0, None) ∧
  (resolve "file:///a/sub/" "./c.js" (resolve "file:///a/" "./sub/c.js" world0).2).1
  = Return (CjsModulePtr 0, None) ∧
  trace (resolve "file:///a/sub/" "./c.js" (resolve "file:///a/" "./sub/c.js" world0).2).2
  = [EvResolve "file:///a/" "./sub/c.js"; EvLoad "file:///a/sub/c.js" "./sub/c.js";
     EvResolve "file:///a/" "./sub/c.js"; EvParse "cjs3" "file:///a/sub/c.js";
     EvCompile "cjs3" "file:///a/sub/c.js"; EvResolve "file:///a/sub/" "./c.js"] ∧
  compiler_calls
    (trace (resolve "file:///a/sub/" "./c.js" (resolve "file:///a/" "./sub/c.js" world0).2).2)
  = 2.
Proof. repeat split; vm_compute; reflexivity. Qed.

(** C2 fails on the legacy require of a script module.  The graph module
    [/a/tla.mjs] awaits at its top level, so its evaluation stays pending:
    run as the root it makes [RunSourceData] panic, but required through
    the legacy require it makes [Require] return the module's namespace. *)
Theorem pending_evaluation_legacy_require_returns :
  (RunSourceData (Require 1)
     {| sd_URL := "file:///a/tla.mjs"; sd_Data := list_byte_of_string "esm await" |}
     world0).1
  = Panic (PanicMsg "TLA not supported in k6 at the moment") ∧
  (Require 1 "./tla.mjs" world0).1
  = Return (Some (ObjNamespace (SourceTextPtr (Some 1)))).
Proof. split; vm_compute; reflexivity. Qed.

(** The file [/a/missing.js] does not load. *)
Lemma failed_resolution_cached_witness :
  cache_key "file:///a/" "./missing.js" = Some "file:///a/missing.js" ∧
  cache (mr (resolve "file:///a/" "./missing.js" world0).2) !! "file:///a/missing.js"
  = Some {| mce_mod := NilModule; mce_err := Some (ErrOther "file not found") |} ∧
  resolve "file:///a/" "./missing.js" (resolve "file:///a/" "./missing.js" world0).2
  = (Return (NilModule, Some (ErrOther "file not found")),
     add_event (EvResolve "file:///a/" "./missing.js")
               (resolve "file:///a/" "./missing.js" world0).2).
Proof.
  split; [reflexivity|].
  destruct (failed_resolution_cached "file:///a/" "./missing.js" "file:///a/missing.js"
              world0 (resolve "file:///a/" "./missing.js" world0).2
              NilModule (ErrOther "file not found")) as [H1 H2];
    [reflexivity | vm_compute; reflexivity |].
  split; [exact H1|]. exact (H2 _ H1).
Defined.

(** Counterexample to C3, on the malformed specifier: its error is returned
    without an entry being made in the cache, and a second resolution runs
    the canonicalization again. *)
Lemma malformed_specifier_not_cached :
  (resolve "file:///a/" "%zz" world0).1
  = Return (NilModule, Some (ErrOther "invalid URL escape")) ∧
  cache (mr (resolve "file:///a/" "%zz" world0).2) = ∅ ∧
  trace (resolve "file:///a/" "%zz" (resolve "file:///a/" "%zz" world0).2).2
  = [EvResolve "file:///a/" "%zz"; EvResolve "file:///a/" "%zz"].
Proof. repeat split; vm_compute; reflexivity. Qed.


(** The example of the specification: [/a/b.js] requires [./sub/c.js],
    whose body requires [./d.js].  The nested call resolves [./d.js]
    against [/a/sub/], the directory of [c.js], in the legacy require
    and in the resolver alike, and never against [/a/]; afterwards the
    tracked directory is [/a/] again. *)
Lemma nested_require_resolves_in_required_directory :
  (Require 1 "./sub/c.js" world0).1 = Return (Some (ObjRef 1)) ∧
  trace (Require 1 "./sub/c.js" world0).2
  = [EvResolve "file:///a/" "./sub/c.js";
     EvResolve "file:///a/" "file:///a/b.js"; EvLoad "file:///a/b.js" "file:///a/b.js";
     EvResolve "file:///a/" "file:///a/b.js"; EvParse "cjs0" "file:///a/b.js";
     EvCompile "cjs0" "file:///a/b.js";
     EvResolve "file:///a/" "./sub/c.js"; EvLoad "file:///a/sub/c.js" "./sub/c.js";
     EvResolve "file:///a/" "./sub/c.js"; EvParse "cjs3" "file:///a/sub/c.js";
     EvCompile "cjs3" "file:///a/sub/c.js";
     EvResolve "file:///a/sub/" "./d.js";
     EvResolve "file:///a/" "file:///a/sub/c.js";
     EvResolve "file:///a/sub/" "./d.js"; EvLoad "file:///a/sub/d.js" "./d.js";
     EvResolve "file:///a/sub/" "./d.js"; EvParse "cjs0" "file:///a/sub/d.js";
     EvCompile "cjs0" "file:///a/sub/d.js"] ∧
  currentlyRequiredModule (Require 1 "./sub/c.js" world0).2 = "file:///a/".
Proof. repeat split; vm_compute; reflexivity. Qed.


(** C6 fails on undefined.  A factory body that assigns null to
    [module.exports] makes [ExecuteModule] return the error "exports must
    be an object"; a body that assigns undefined passes the test, which is
    [goja.IsNull], and the call panics in [ToObject] instead of returning
    that error. *)
Theorem ExecuteModule_undefined_exports_not_rejected :
  (Cjs.ExecuteModule (Require 0) (Cjs.Instantiate 0) (world_cjs 2)).1
  = Return ({| cmi_exports := Some (ObjRef 1); cmi_w := 0; cmi_isEsModuleMarked := false |},
            Some ErrExportsMustBeObject) ∧
  (Cjs.ExecuteModule (Require 0) (Cjs.Instantiate 0) (world_cjs 1)).1
  = Panic (PanicTypeError "Cannot convert undefined or null to object").
Proof. split; vm_compute; reflexivity. Qed.

(** Counterexample to C7, on the work done before the rejection: the empty
    specifier is first handed to the loader, which the record of calls
    shows; with a loader that rejects it, as this one does, it is the
    loader's error that comes back, not the error of the empty-specifier
    test. *)
Lemma Require_empty_resolves_first :
  (Require 0 "" world0).1 = Error (ErrOther "local or remote path required") ∧
  trace (Require 0 "" world0).2 = trace world0 ++ [EvResolve "file:///a/" ""].
Proof. split; vm_compute; reflexivity. Qed.

(** The host module [k6/both] has named exports and a default. *)
Lemma Require_host_module_bridged_witness :
  ∃ gmi obj,
    GetModuleInstance (rt (Require 0 "k6/both" world0).2) (GoModulePtr 1)
    = Some (InstGoModule gmi) ∧
    (Require 0 "k6/both" world0).1 = Return (Some obj) ∧
    ToObject (Some (ToValue (toESModuleExports (mi_Exports (gmi_mi gmi))))) = Return obj.
Proof.
  destruct (Require_host_module_bridged 0 "k6/both" world0 world0
              (resolveRequired "k6/both" world0).2 (Require 0 "k6/both" world0).2 1
              match (Require 0 "k6/both" world0).1 with Return o => o | _ => None end)
    as (gmi & obj & H1 & H2 & H3 & _);
    [reflexivity | vm_compute; reflexivity | vm_compute; reflexivity |].
  exists gmi, obj. split; [exact H1|]. split; [|exact H3].
  rewrite <- H2. vm_compute. reflexivity.
Defined.

(** Counterexample to C8, on "all named entries": the host module [k6/clash]
    has the named export [default: 1] and the default [2]; the object
    [Require] returns has [2] under [default], and the named entry is
    gone. *)
Lemma bridged_default_overwrites_named_entry :
  match (Require 0 "k6/clash" world0).1 with
  | Return (Some (ObjHost (AnyMap result))) =>
      result !! "default" = Some (AnyInt 2) ∧
      ({[ "default" := AnyInt 1 ]} : gmap string GoAny) !! "default" = Some (AnyInt 1)
  | _ => False
  end.
Proof. vm_compute. split; reflexivity. Qed.

(** A non-conforming host module whose value is [{default: 7, x: 1}]. *)
Lemma basic_module_bindings_witness :
  BasicGoModule.Instantiate runtime0 basic_module
  = (Return {| bgmi_v := ObjHost (bgm_m basic_module) |},
     (BasicGoModule.Instantiate runtime0 basic_module).2) ∧
  BasicGoModule.GetBindingValue runtime0 {| bgmi_v := ObjHost (bgm_m basic_module) |} "x"
  = Some (VPrim (PNum 1)) ∧
  BasicGoModule.GetBindingValue runtime0 {| bgmi_v := ObjHost (bgm_m basic_module) |} "default"
  = Some (VObj (ObjHost (bgm_m basic_module))).
Proof.
  assert (Hinst : BasicGoModule.Instantiate runtime0 basic_module
                  = (Return {| bgmi_v := ObjHost (bgm_m basic_module) |},
                     (BasicGoModule.Instantiate runtime0 basic_module).2))
    by (vm_compute; reflexivity).
  split; [exact Hinst|].
  destruct (basic_module_bindings runtime0 basic_module _ _ Hinst) as (_ & _ & H3).
  destruct (H3 runtime0) as [Hnamed Hdefault].
  split; [|exact Hdefault].
  rewrite (Hnamed "x") by discriminate. vm_compute. reflexivity.
Defined.

(** Counterexample to C9, on the [default] property: the wrapped value has a
    property [default] with the value 7, and the binding [default] is the
    whole wrapped value, not 7. *)
Lemma basic_default_is_the_whole_value :
  Object_Get runtime0 (ObjHost (bgm_m basic_module)) "default" = Some (VPrim (PNum 7)) ∧
  BasicGoModule.GetBindingValue runtime0 {| bgmi_v := ObjHost (bgm_m basic_module) |} "default"
  = Some (VObj (ObjHost (bgm_m basic_module))) ∧
  BasicGoModule.GetBindingValue runtime0 {| bgmi_v := ObjHost (bgm_m basic_module) |} "default"
  ≠ Object_Get runtime0 (ObjHost (bgm_m basic_module)) "default".
Proof. repeat split; [vm_compute; reflexivity..|]. vm_compute. discriminate. Qed.

(** The record of a host module with the named exports [{x: 1, y: 2}]. *)
Lemma Instantiate_exportedNames_doubled_witness :
  0 < size named_xy ∧
  ∃ gmi gm',
    GoModule.Instantiate runtime0 named_module = (Return gmi, gm') ∧
    length (gm_exportedNames gm') = 4 ∧
    take 2 (gm_exportedNames gm') = [""; ""].
Proof.
  assert (Hsize : size named_xy = 2) by (vm_compute; reflexivity).
  split; [rewrite Hsize; lia|].
  destruct (Instantiate_exportedNames_doubled runtime0 named_module {| vu_id := 1 |} named_xy)
    as (gmi & gm' & H1 & H2 & H3 & _); [reflexivity.. | rewrite Hsize; lia |].
  rewrite Hsize in H2, H3.
  exists gmi, gm'. split; [exact H1|]. split; [exact H2|exact H3].
Defined.

(** The engine of the installation changes the tracked directory only
    through the [require] calls of the bodies it runs, so that every call
    of [Require] on it leaves the directory as it found it. *)
Lemma scenario_engine_keeps_directory
    (require : string → M (option Object)) (m : ModuleRecord) :
  (∀ specifier, keeps_directory (require specifier)) →
  keeps_directory (CyclicModuleRecordEvaluate require m).
Proof.
  intros Hreq. simpl. unfold evaluate.
  apply keeps_directory_bind; [done|]. intros mi.
  apply keeps_directory_bind; [done|]. intros h.
  apply keeps_directory_bind; [done|]. intros r.
  destruct mi; [done|].
  destruct m as [|p|p|p|[p|]]; try done.
  - destruct (h !! p) as [[gm| | |]|]; try done.
    destruct (GoModule.Instantiate r gm) as [o gm'].
    apply keeps_directory_bind; [by apply keeps_directory_modify|]. intros _.
    apply keeps_directory_bind; [done|]. intros gmi.
    apply keeps_directory_bind; [by apply keeps_directory_modify|]. done.
  - destruct (h !! p) as [[|bgm| |]|]; try done.
    destruct (BasicGoModule.Instantiate r bgm) as [o bgm'].
    apply keeps_directory_bind; [by apply keeps_directory_modify|]. intros _.
    apply keeps_directory_bind; [done|]. intros bgmi.
    apply keeps_directory_bind; [by apply keeps_directory_modify|]. done.
  - apply keeps_directory_bind.
    + apply keeps_directory_ExecuteModule; [done|].
      intros f this args. simpl.
      destruct f as [|[|[|[|f]]]]; try done.
      * destruct args as [|[| | |module] args]; try done;
          (apply keeps_directory_bind; [by apply keeps_directory_modify|]; done).
      * destruct args as [|[| | |module] args]; try done;
          (apply keeps_directory_bind; [by apply keeps_directory_modify|]; done).
      * apply keeps_directory_bind; [|done]. unfold call_require.
        apply keeps_directory_bind; [done|]. intros old.
        apply keeps_directory_bind; [by apply keeps_directory_modify|]. intros _.
        by apply keeps_directory_with_defer.
    + intros [cmi [e|]]; [done|].
      apply keeps_directory_bind; [by apply keeps_directory_modify|]. done.
  - destruct (h !! p) as [[| | |prg]|]; try done.
    destruct (String.eqb prg "esm await"); [done|].
    apply keeps_directory_bind; [by apply keeps_directory_modify|]. done.
Qed.

Lemma scenario_Require_keeps_directory (depth : nat) (specifier : string) :
  keeps_directory (Require depth specifier).
Proof.
  apply Require_keeps_directory; [done|]. apply scenario_engine_keeps_directory.
Qed.

End on_scenario.
(** ** part_000: what a resolution does to the resolver's state *)

Section resolver_state.
Context {collab : Collaborators}.

Ltac munfold :=
  unfold resolveLoaded, resolveSpecifier, requireModule, cjsModuleFromString,
    ModuleFromAST, cache_store, reverse_store, alloc, log, gets, modify, fail, panic,
    mbind, M_bind, bind, mret, M_ret, ret.

Lemma assoc_lookup_insert_eq {K V} `{EqDecision K} (k : K) (v : V) (l : list (K * V)) :
  assoc_lookup k (assoc_insert k v l) = Some v.
Proof.
  induction l as [|[k' v'] l IH]; simpl.
  - by rewrite decide_True.
  - destruct (decide (k = k')) as [->|Hne]; simpl.
    + by rewrite decide_True.
    + by rewrite decide_False.
Qed.

Lemma assoc_lookup_insert_ne {K V} `{EqDecision K} (k k' : K) (v : V) (l : list (K * V)) :
  k ≠ k' → assoc_lookup k' (assoc_insert k v l) = assoc_lookup k' l.
Proof.
  intros Hne. induction l as [|[k0 v0] l IH]; simpl.
  - by rewrite decide_False.
  - destruct (decide (k = k0)) as [->|Hne0]; simpl.
    + by rewrite !decide_False.
    + by rewrite IH.
Qed.

Lemma Forall_assoc_insert {K V} `{EqDecision K} (P : K * V → Prop) (k : K) (v : V)
    (l : list (K * V)) :
  Forall P l → P (k, v) → Forall P (assoc_insert k v l).
Proof.
  intros Hl Hkv. induction Hl as [|[k' v'] l Hx Hl IH]; simpl.
  - by constructor.
  - destruct (decide (k = k')); by constructor.
Qed.

(** The outcome and the effect of [resolveLoaded], case by case. *)
Lemma resolveLoaded_effect (basePWD : URL) (arg : string) (data : list Byte.byte) (w : World) :
  ∃ m err w',
    resolveLoaded basePWD arg data w = (Return (m, err), w') ∧
    rt w' = rt w ∧ currentlyRequiredModule w' = currentlyRequiredModule w ∧
    goModules (mr w') = goModules (mr w) ∧ base (mr w') = base (mr w) ∧
    match loader_Resolve basePWD arg with
    | inl e =>
        m = NilModule ∧ err = Some e ∧
        cache (mr w') = cache (mr w) ∧ heap w' = heap w ∧ reverse (mr w') = reverse (mr w)
    | inr L =>
        match cache (mr w) !! url_String L with
        | Some c =>
            m = mce_mod c ∧ err = mce_err c ∧
            cache (mr w') = cache (mr w) ∧ heap w' = heap w ∧
            reverse (mr w') = reverse (mr w)
        | None =>
            cache (mr w') = <[url_String L := {| mce_mod := m; mce_err := err |}]> (cache (mr w)) ∧
            ((is_Some err ∧ record_address m = None ∧ heap w' = heap w ∧
              (reverse (mr w') = reverse (mr w) ∨
               reverse (mr w') = assoc_insert m L (reverse (mr w)))) ∨
             (err = None ∧ is_script m = true ∧
              record_address m = Some (fresh (dom (heap w))) ∧
              (∃ obj, heap w' = <[fresh (dom (heap w)) := obj]> (heap w)) ∧
              points_to (heap w') m ∧
              reverse (mr w') = assoc_insert m L (reverse (mr w))))
        end
    end.
Proof.
  munfold. simpl.
  destruct (loader_Resolve basePWD arg) as [e|L]; simpl.
  { eexists _, _, _. split; [reflexivity|]. simpl. done. }
  destruct (cache (mr w) !! url_String L) as [c|] eqn:Hc; simpl.
  { eexists _, _, _. split; [reflexivity|]. simpl. done. }
  destruct (compiler_Parse _ _ _) as [e|[prg [|]]]; simpl.
  - eexists _, _, _. split; [reflexivity|]. simpl. repeat split; try done.
    left. repeat split; eauto.
  - destruct (goja_ModuleFromAST prg) as [e|]; simpl.
    + eexists _, _, _. split; [reflexivity|]. simpl. repeat split; try done.
      left. repeat split; eauto.
    + eexists _, _, _. split; [reflexivity|]. simpl. repeat split; try done.
      right. repeat split; eauto. simpl. rewrite lookup_insert_eq. eauto.
  - destruct (compiler_Compile _ _ _) as [e|pgm]; simpl.
    + eexists _, _, _. split; [reflexivity|]. simpl. repeat split; try done.
      left. repeat split; eauto.
    + eexists _, _, _. split; [reflexivity|]. simpl. repeat split; try done.
      right. repeat split; eauto. simpl. rewrite lookup_insert_eq. eauto.
Qed.

(** The outcome and the effect of [resolve], case by case. *)
Lemma resolve_effect (basePWD : URL) (arg : string) (w : World) :
  ∃ m err w',
    resolve basePWD arg w = (Return (m, err), w') ∧
    rt w' = rt w ∧ currentlyRequiredModule w' = currentlyRequiredModule w ∧
    goModules (mr w') = goModules (mr w) ∧ base (mr w') = base (mr w) ∧
    match cache_key basePWD arg with
    | None =>
        m = NilModule ∧ is_Some err ∧
        cache (mr w') = cache (mr w) ∧ heap w' = heap w ∧ reverse (mr w') = reverse (mr w)
    | Some key =>
        match cache (mr w) !! key with
        | Some c =>
            m = mce_mod c ∧ err = mce_err c ∧
            cache (mr w') = cache (mr w) ∧ heap w' = heap w ∧
            reverse (mr w') = reverse (mr w)
        | None =>
            cache (mr w') = <[key := {| mce_mod := m; mce_err := err |}]> (cache (mr w)) ∧
            ((is_Some err ∧ record_address m = None ∧ heap w' = heap w ∧
              (reverse (mr w') = reverse (mr w) ∨
               ∃ L, loader_Resolve basePWD arg = inr L ∧ url_String L = key ∧
                    reverse (mr w') = assoc_insert m L (reverse (mr w)))) ∨
             (err = None ∧
              record_address m = Some (fresh (dom (heap w))) ∧
              (∃ obj, heap w' = <[fresh (dom (heap w)) := obj]> (heap w)) ∧
              points_to (heap w') m ∧
              ((is_builtin arg = true ∧ is_script m = false ∧
                reverse (mr w') = reverse (mr w)) ∨
               (∃ L, loader_Resolve basePWD arg = inr L ∧ url_String L = key ∧
                     is_script m = true ∧
                     reverse (mr w') = assoc_insert m L (reverse (mr w))))))
        end
    end.
Proof.
  unfold resolve, cache_key. destruct (is_builtin arg) eqn:Hb.
  - munfold. simpl. destruct (cache (mr w) !! arg) as [c|] eqn:Hc; simpl.
    { eexists _, _, _. split; [reflexivity|]. simpl. done. }
    destruct (goModules (mr w) !! arg) as [[k6m|v]|]; simpl.
    + eexists _, _, _. split; [reflexivity|]. simpl. repeat split; try done.
      right. repeat split; eauto.
      all: try (simpl; rewrite lookup_insert_eq; by eauto).
      all: left; by repeat split.
    + eexists _, _, _. split; [reflexivity|]. simpl. repeat split; try done.
      right. repeat split; eauto.
      all: try (simpl; rewrite lookup_insert_eq; by eauto).
      all: left; by repeat split.
    + eexists _, _, _. split; [reflexivity|]. simpl. repeat split; try done.
      left. repeat split; eauto.
  - unfold resolveSpecifier, cache_store, log, gets, modify, mbind, M_bind, bind, mret,
      M_ret, ret. simpl.
    destruct (loader_Resolve basePWD arg) as [e|L] eqn:HL; simpl.
    { eexists _, _, _. split; [reflexivity|]. simpl. repeat split; eauto. }
    destruct (cache (mr w) !! url_String L) as [c|] eqn:Hc; simpl.
    { eexists _, _, _. split; [reflexivity|]. simpl. done. }
    destruct (loadCJS L arg) as [e|data]; simpl.
    { eexists _, _, _. split; [reflexivity|]. simpl. repeat split; try done.
      left. repeat split; eauto. }
    match goal with |- context [resolveLoaded basePWD arg data ?w0] =>
      destruct (resolveLoaded_effect basePWD arg data w0)
        as (m & err & w' & -> & Hrt & Hpwd & Hgo & Hbase & Heff) end.
    rewrite HL in Heff. simpl in Heff. rewrite Hc in Heff.
    destruct Heff as (Hcache & Hcases).
    exists m, err, w'. split; [done|]. repeat split; try done.
    destruct Hcases as [(He & Ha & Hh & Hr)|(He & Hs & Ha & Hh & Hp & Hr)].
    + left. repeat split; try done. destruct Hr as [Hr|Hr]; [by left|right; eauto].
    + right. repeat split; try done. right. eauto 10.
Qed.


Lemma points_to_insert_fresh (h : gmap nat RecordObject) (obj : RecordObject) (m : ModuleRecord) :
  points_to h m → points_to (<[fresh (dom h) := obj]> h) m.
Proof.
  assert (Hfresh : h !! fresh (dom h) = None) by (apply not_elem_of_dom, is_fresh).
  destruct m as [|p|p|p|[p|]]; simpl; try done.
  all: intros [x Hx]; exists x; rewrite lookup_insert_ne; [done|intros ?; subst; congruence].
Qed.

Lemma points_to_address (h : gmap nat RecordObject) (m : ModuleRecord) (p : nat) :
  points_to h m → record_address m = Some p → is_Some (h !! p).
Proof. destruct m as [|q|q|q|[q|]]; simpl; try done; intros [x Hx] [= <-]; eauto. Qed.

Lemma elem_of_Imported (r : ModuleResolver) (name : string) :
  name ∈ Imported r ↔ is_Some (cache r !! name).
Proof.
  unfold Imported. rewrite list_elem_of_fmap. split.
  - intros ([k c] & -> & Hin). apply elem_of_map_to_list in Hin. eauto.
  - intros [c Hc]. exists (name, c). split; [done|]. by apply elem_of_map_to_list.
Qed.

Lemma resolve_keeps_entry
    (basePWD : URL) (arg : string) (w : World) (key : string) (c : moduleCacheElement) :
  cache (mr w) !! key = Some c →
  cache (mr (resolve basePWD arg w).2) !! key = Some c.
Proof.
  intros Hkey.
  destruct (resolve_effect basePWD arg w) as (m & err & w' & -> & _ & _ & _ & _ & Heff).
  simpl. destruct (cache_key basePWD arg) as [key'|].
  - destruct (cache (mr w) !! key') as [c'|] eqn:Hc'.
    + destruct Heff as (_ & _ & -> & _). done.
    + destruct Heff as (-> & _). rewrite lookup_insert_ne; [done|intros ?; subst; congruence].
  - destruct Heff as (_ & _ & -> & _). done.
Qed.

Lemma resolveLoaded_keeps_entry
    (basePWD : URL) (arg : string) (data : list Byte.byte) (w : World)
    (key : string) (c : moduleCacheElement) :
  cache (mr w) !! key = Some c →
  cache (mr (resolveLoaded basePWD arg data w).2) !! key = Some c.
Proof.
  intros Hkey.
  destruct (resolveLoaded_effect basePWD arg data w)
    as (m & err & w' & -> & _ & _ & _ & _ & Heff).
  simpl. destruct (loader_Resolve basePWD arg) as [e|L].
  - destruct Heff as (_ & _ & -> & _). done.
  - destruct (cache (mr w) !! url_String L) as [c'|] eqn:Hc'.
    + destruct Heff as (_ & _ & -> & _). done.
    + destruct Heff as (-> & _). rewrite lookup_insert_ne; [done|intros ?; subst; congruence].
Qed.

(** X1.  The cache is written once per key: an entry that is in the cache
    is still there, unchanged, after any [resolve] and any [resolveLoaded],
    whatever they were asked for. *)
Theorem cache_entries_are_kept
    (basePWD : URL) (arg : string) (data : list Byte.byte) (w : World)
    (key : string) (c : moduleCacheElement) :
  cache (mr w) !! key = Some c →
  cache (mr (resolve basePWD arg w).2) !! key = Some c ∧
  cache (mr (resolveLoaded basePWD arg data w).2) !! key = Some c.
Proof.
  intros Hkey. split.
  - by apply resolve_keeps_entry.
  - by apply resolveLoaded_keeps_entry.
Qed.

(** X2.  [Imported] lists the cache key of every specifier that was
    resolved and has one, whether its resolution succeeded or failed; it
    loses no name, gains no other name, and lists no name twice. *)
Theorem Imported_lists_every_resolution (basePWD : URL) (arg : string) (w : World) :
  (∀ key, cache_key basePWD arg = Some key →
     key ∈ Imported (mr (resolve basePWD arg w).2)) ∧
  (∀ name, name ∈ Imported (mr w) → name ∈ Imported (mr (resolve basePWD arg w).2)) ∧
  (∀ name, name ∈ Imported (mr (resolve basePWD arg w).2) →
     name ∈ Imported (mr w) ∨ cache_key basePWD arg = Some name) ∧
  NoDup (Imported (mr (resolve basePWD arg w).2)).
Proof.
  destruct (resolve_effect basePWD arg w) as (m & err & w' & Hres & _ & _ & _ & _ & Heff).
  rewrite Hres. simpl. repeat split.
  - intros key Hkey. rewrite Hkey in Heff. apply elem_of_Imported.
    destruct (cache (mr w) !! key) as [c|] eqn:Hc.
    + destruct Heff as (_ & _ & -> & _). by rewrite Hc.
    + destruct Heff as (-> & _). rewrite lookup_insert_eq. eauto.
  - intros name Hname. apply elem_of_Imported in Hname as [c Hc]. apply elem_of_Imported.
    pose proof (resolve_keeps_entry basePWD arg w name c Hc) as Hk.
    rewrite Hres in Hk. eauto.
  - intros name Hname. apply elem_of_Imported in Hname as [c Hc].
    destruct (cache_key basePWD arg) as [key|].
    + destruct (cache (mr w) !! key) as [c'|] eqn:Hc'.
      * destruct Heff as (_ & _ & Heq & _). rewrite Heq in Hc.
        left. apply elem_of_Imported. eauto.
      * destruct Heff as (Heq & _). rewrite Heq in Hc.
        destruct (decide (key = name)) as [->|Hne]; [by right|].
        rewrite lookup_insert_ne in Hc by done. left. apply elem_of_Imported. eauto.
    + destruct Heff as (_ & _ & Heq & _). rewrite Heq in Hc.
      left. apply elem_of_Imported. eauto.
  - apply NoDup_fst_map_to_list.
Qed.

(** A resolver as [NewModuleResolver] makes it is consistent, whatever the
    rest of the world is. *)
Lemma new_resolver_consistent
    (table : gmap string HostModule) (b : URL) (h : gmap nat RecordObject)
    (r : Runtime) (pwd : URL) (evs : list Event) :
  resolver_consistent
    {| mr := NewModuleResolver table b; heap := h; rt := r;
       currentlyRequiredModule := pwd; trace := evs |}.
Proof.
  split; [|split]; simpl.
  - apply map_Forall_empty.
  - constructor.
  - intros key c Hc. by rewrite lookup_empty in Hc.
Qed.

Lemma consistent_step (w w' : World) (key : string) (m : ModuleRecord) (err : option error)
    (L : URL) :
  resolver_consistent w →
  cache (mr w') = <[key := {| mce_mod := m; mce_err := err |}]> (cache (mr w)) →
  (heap w' = heap w ∨ ∃ obj, heap w' = <[fresh (dom (heap w)) := obj]> (heap w)) →
  points_to (heap w') m →
  (record_address m = None ∨ record_address m = Some (fresh (dom (heap w)))) →
  (reverse (mr w') = reverse (mr w) ∧ is_script m = false ∨
   reverse (mr w') = assoc_insert m L (reverse (mr w)) ∧ url_String L = key) →
  resolver_consistent w'.
Proof.
  intros (Hcache & Hrev & Hreg) Hc' Hh' Hm Haddr Hr'.
  assert (Hfresh : heap w !! fresh (dom (heap w)) = None) by (apply not_elem_of_dom, is_fresh).
  assert (Hmono : ∀ m0, points_to (heap w) m0 → points_to (heap w') m0).
  { intros m0 Hm0. destruct Hh' as [->|[obj ->]]; [done|].
    by apply points_to_insert_fresh. }
  assert (Hnew : ∀ m0, points_to (heap w) m0 → is_script m0 = true → m ≠ m0).
  { intros m0 Hm0 Hs0 ->. destruct Haddr as [Ha|Ha].
    - by destruct m0 as [| | | |[|]].
    - destruct (points_to_address _ _ _ Hm0 Ha) as [x Hx]. congruence. }
  split; [|split].
  - rewrite Hc'. apply map_Forall_insert_2; [done|].
    intros k c0 Hk. apply Hmono. by apply (Hcache k).
  - destruct Hr' as [[-> _]|[-> _]].
    + eapply Forall_impl; [exact Hrev|]. intros [m0 L0]. apply Hmono.
    + apply Forall_assoc_insert; [|done].
      eapply Forall_impl; [exact Hrev|]. intros [m0 L0]. apply Hmono.
  - intros k c0. rewrite Hc'. intros Hk Hs.
    destruct (decide (key = k)) as [->|Hne].
    + rewrite lookup_insert_eq in Hk. injection Hk as <-. simpl in *.
      destruct Hr' as [[_ Hns]|[-> HL]]; [congruence|].
      exists L. by rewrite assoc_lookup_insert_eq.
    + rewrite lookup_insert_ne in Hk by done.
      destruct (Hreg k c0 Hk Hs) as (L0 & HL0 & Hkey0). exists L0. split; [|done].
      destruct Hr' as [[-> _]|[-> _]]; [done|].
      rewrite assoc_lookup_insert_ne; [done|].
      apply Hnew; [|done]. by apply (Hcache k).
Qed.

Lemma consistent_frame (w w' : World) :
  resolver_consistent w →
  cache (mr w') = cache (mr w) → heap w' = heap w → reverse (mr w') = reverse (mr w) →
  resolver_consistent w'.
Proof. unfold resolver_consistent. by intros H -> -> ->. Qed.

Lemma resolve_keeps_consistent (basePWD : URL) (arg : string) (w : World) :
  resolver_consistent w → resolver_consistent (resolve basePWD arg w).2.
Proof.
  intros Hw.
  assert (Hnoaddr : ∀ m, record_address m = None → points_to (heap w) m ∧ is_script m = false)
    by (by intros [| | | |[|]]).
  destruct (resolve_effect basePWD arg w) as (m & err & w' & -> & _ & _ & _ & _ & Heff).
  simpl. destruct (cache_key basePWD arg) as [key|].
  - destruct (cache (mr w) !! key) as [c|] eqn:Hc.
    + destruct Heff as (_ & _ & H1 & H2 & H3). by apply (consistent_frame w).
    + destruct Heff as (Hcache & [(He & Ha & Hh & Hr)|(He & Ha & Hh & Hp & Hr)]).
      * destruct (Hnoaddr m Ha) as [Hp Hs]. rewrite <- Hh in Hp.
        destruct Hr as [Hr|(L & HL & Hkey & Hr)].
        -- apply (consistent_step w w' key m err (base (mr w))); eauto.
        -- apply (consistent_step w w' key m err L); eauto.
      * destruct Hr as [(Hb & Hs & Hr)|(L & HL & Hkey & Hs & Hr)].
        -- apply (consistent_step w w' key m err (base (mr w))); eauto.
        -- apply (consistent_step w w' key m err L); eauto.
  - destruct Heff as (_ & _ & H1 & H2 & H3). by apply (consistent_frame w).
Qed.

Lemma resolveLoaded_keeps_consistent
    (basePWD : URL) (arg : string) (data : list Byte.byte) (w : World) :
  resolver_consistent w → resolver_consistent (resolveLoaded basePWD arg data w).2.
Proof.
  intros Hw.
  assert (Hnoaddr : ∀ m, record_address m = None → points_to (heap w) m ∧ is_script m = false)
    by (by intros [| | | |[|]]).
  destruct (resolveLoaded_effect basePWD arg data w)
    as (m & err & w' & -> & _ & _ & _ & _ & Heff).
  simpl. destruct (loader_Resolve basePWD arg) as [e|L].
  - destruct Heff as (_ & _ & H1 & H2 & H3). by apply (consistent_frame w).
  - destruct (cache (mr w) !! url_String L) as [c|] eqn:Hc.
    + destruct Heff as (_ & _ & H1 & H2 & H3). by apply (consistent_frame w).
    + destruct Heff as (Hcache & [(He & Ha & Hh & Hr)|(He & Hs & Ha & Hh & Hp & Hr)]).
      * destruct (Hnoaddr m Ha) as [Hp Hs]. rewrite <- Hh in Hp.
        destruct Hr as [Hr|Hr].
        -- apply (consistent_step w w' (url_String L) m err L); eauto.
        -- apply (consistent_step w w' (url_String L) m err L); eauto.
      * apply (consistent_step w w' (url_String L) m err L); eauto.
Qed.

(** X3.  Resolutions keep the resolver consistent: after any [resolve]
    and any [resolveLoaded], every record of the cache and of the reverse
    map still points to a struct of its type, and every script record of
    the cache is in the reverse map under the locator it is cached by. *)
Theorem resolution_keeps_resolver_consistent
    (basePWD : URL) (arg : string) (data : list Byte.byte) (w : World) :
  resolver_consistent w →
  resolver_consistent (resolve basePWD arg w).2 ∧
  resolver_consistent (resolveLoaded basePWD arg data w).2.
Proof.
  intros Hw. split.
  - by apply resolve_keeps_consistent.
  - by apply resolveLoaded_keeps_consistent.
Qed.

(** X4.  Records are as many as keys: two specifiers with different cache
    keys, neither in the cache, that are resolved one after the other with
    success get two different records. *)
Theorem different_keys_different_records
    (baseA baseB : URL) (A B keyA keyB : string) (w wA wB : World) (mA mB : ModuleRecord) :
  cache_key baseA A = Some keyA →
  cache_key baseB B = Some keyB →
  keyA ≠ keyB →
  cache (mr w) !! keyA = None →
  cache (mr w) !! keyB = None →
  resolve baseA A w = (Return (mA, None), wA) →
  resolve baseB B wA = (Return (mB, None), wB) →
  mA ≠ mB ∧
  cache (mr wB) !! keyA = Some {| mce_mod := mA; mce_err := None |} ∧
  cache (mr wB) !! keyB = Some {| mce_mod := mB; mce_err := None |}.
Proof.
  intros HkA HkB Hne HcA HcB HrA HrB.
  destruct (resolve_effect baseA A w) as (m & err & w' & Hres & _ & _ & _ & _ & Heff).
  rewrite HrA in Hres. injection Hres as <- <- <-.
  rewrite HkA, HcA in Heff.
  destruct Heff as (HcacheA & [([? ?] & _)|(_ & HaA & [objA HhA] & HpA & _)]); [done|].
  assert (HcB' : cache (mr wA) !! keyB = None) by (rewrite HcacheA, lookup_insert_ne; done).
  destruct (resolve_effect baseB B wA) as (m & err & w' & Hres & _ & _ & _ & _ & Heff).
  rewrite HrB in Hres. injection Hres as <- <- <-.
  rewrite HkB, HcB' in Heff.
  destruct Heff as (HcacheB & [([? ?] & _)|(_ & HaB & _)]); [done|].
  split; [|split].
  - intros ->. rewrite HaA in HaB. injection HaB as HaB.
    assert (Hin : fresh (dom (heap w)) ∈ dom (heap wA)).
    { rewrite HhA. apply elem_of_dom. rewrite lookup_insert_eq. eauto. }
    rewrite HaB in Hin. by apply is_fresh in Hin.
  - rewrite HcacheB, lookup_insert_ne by done. rewrite HcacheA. apply lookup_insert_eq.
  - rewrite HcacheB. apply lookup_insert_eq.
Qed.

(** X5.  A script record that is in the cache of a consistent resolver can
    be the referrer of a resolution: [gojaModuleResolver] does not panic on
    it, and resolves the specifier against the parent of the locator the
    record is cached by, or against the resolver's base when that locator
    is the standard input. *)
Theorem cached_script_is_a_referrer
    (w : World) (key : string) (c : moduleCacheElement) :
  resolver_consistent w →
  cache (mr w) !! key = Some c →
  is_script (mce_mod c) = true →
  ∃ L, url_String L = key ∧
    assoc_lookup (mce_mod c) (reverse (mr w)) = Some L ∧
    ∀ specifier,
      gojaModuleResolver (mce_mod c) specifier w
      = resolve (if String.eqb key "file://-" then base (mr w) else url_JoinPath L "..")
                specifier w.
Proof.
  intros (_ & _ & Hreg) Hc Hs. destruct (Hreg key c Hc Hs) as (L & HL & Hkey).
  exists L. split; [done|]. split; [done|]. intros specifier.
  unfold gojaModuleResolver, reversePath.
  unfold gets, mbind, M_bind, bind, mret, M_ret, ret. simpl. rewrite HL, Hkey.
  by destruct (String.eqb key "file://-").
Qed.

(** X6.  A factory module that parses and then fails to compile leaves a
    mark on the nil referrer: [resolveLoaded] stores the nil record it got
    in the reverse map under the module's locator, so that from then on a
    resolution without a referrer is made against the parent of that
    locator, and no longer against the resolver's base. *)
Theorem failed_compile_rebases_nil_referrer
    (basePWD : URL) (arg : string) (data : list Byte.byte) (w : World)
    (L : URL) (prg : AST) (e : error) :
  loader_Resolve basePWD arg = inr L →
  cache (mr w) !! url_String L = None →
  compiler_Parse (string_of_list_byte data) (url_String L) false = inr (prg, false) →
  compiler_Compile (string_of_list_byte data) (url_String L) false = inl e →
  String.eqb (url_String L) "file://-" = false →
  ∃ w',
    resolveLoaded basePWD arg data w = (Return (NilModule, Some e), w') ∧
    assoc_lookup NilModule (reverse (mr w')) = Some L ∧
    ∀ specifier,
      gojaModuleResolver NilModule specifier w' = resolve (url_JoinPath L "..") specifier w'.
Proof.
  intros HL Hc Hparse Hcomp Hstdin.
  munfold. simpl. rewrite HL. simpl. rewrite Hc, Hparse. simpl. rewrite Hcomp. simpl.
  eexists. split; [reflexivity|]. split.
  - simpl. apply assoc_lookup_insert_eq.
  - intros specifier. unfold gojaModuleResolver, reversePath.
    unfold gets, mbind, M_bind, bind, mret, M_ret, ret. simpl.
    rewrite assoc_lookup_insert_eq, Hstdin. done.
Qed.

(** X7.  What [resolveLoaded] has registered, [resolve] finds: for a
    specifier outside the built-in namespace, a [resolve] that follows a
    [resolveLoaded] of the same specifier returns the same record and the
    same error, and only canonicalizes the specifier: the file loader and
    the compiler are not called. *)
Theorem resolve_after_resolveLoaded
    (basePWD : URL) (arg : string) (data : list Byte.byte) (w : World) :
  is_builtin arg = false →
  ∃ m err w1,
    resolveLoaded basePWD arg data w = (Return (m, err), w1) ∧
    resolve basePWD arg w1 = (Return (m, err), add_event (EvResolve basePWD arg) w1).
Proof.
  intros Hb.
  destruct (resolveLoaded_effect basePWD arg data w)
    as (m & err & w1 & Hres & _ & _ & _ & _ & Heff).
  exists m, err, w1. split; [done|].
  destruct (loader_Resolve basePWD arg) as [e|L] eqn:HL.
  - destruct Heff as (-> & -> & _). by apply resolve_malformed.
  - destruct (cache (mr w) !! url_String L) as [c|] eqn:Hc.
    + destruct Heff as (-> & -> & Hcache & _).
      apply (resolve_file_hit _ _ _ L); [done..|]. by rewrite Hcache.
    + destruct Heff as (Hcache & _).
      assert (Hc' : cache (mr w1) !! url_String L = Some {| mce_mod := m; mce_err := err |})
        by (rewrite Hcache; apply lookup_insert_eq).
      by rewrite (resolve_file_hit _ _ _ L _ Hb HL Hc').
Qed.

End resolver_state.

(** ** part_000 and part_001: the root run, the call stack, the legacy require *)

Section module_system_more.
Context {collab : Collaborators} {engine : Evaluator}.

Lemma resolveLoaded_hit
    (basePWD : URL) (arg : string) (data : list Byte.byte) (w : World) (L : URL)
    (c : moduleCacheElement) :
  loader_Resolve basePWD arg = inr L →
  cache (mr w) !! url_String L = Some c →
  resolveLoaded basePWD arg data w
  = (Return (mce_mod c, mce_err c), add_event (EvResolve basePWD arg) w).
Proof.
  intros HL Hc. unfold resolveLoaded, resolveSpecifier.
  unfold log, gets, modify, mbind, M_bind, bind, mret, M_ret, ret. simpl.
  rewrite HL. simpl. by rewrite Hc.
Qed.

(** X8.  A root whose locator is in the cache is run from the cache: the
    bytes handed to [RunSourceData] are not looked at, and two runs that
    differ only in the bytes do the same. *)
Theorem RunSourceData_uses_cached_root
    (require : string → M (option Object)) (U : URL) (data1 data2 : list Byte.byte)
    (w : World) (L : URL) (c : moduleCacheElement) :
  loader_Resolve (url_JoinPath U "../") (url_String U) = inr L →
  cache (mr w) !! url_String L = Some c →
  RunSourceData require {| sd_URL := U; sd_Data := data1 |} w
  = RunSourceData require {| sd_URL := U; sd_Data := data2 |} w.
Proof.
  intros HL Hc. unfold RunSourceData. simpl.
  unfold mbind, M_bind, bind.
  by rewrite !(resolveLoaded_hit _ _ _ _ L c HL Hc).
Qed.

(** X9.  A root that does not parse keeps failing: [RunSourceData] returns
    the compiler's error, and as long as the entry made for the locator is
    in the cache every later run of that locator returns the same error,
    whatever bytes it is given, without parsing them. *)
Theorem RunSourceData_parse_error_sticks
    (require : string → M (option Object)) (U : URL) (data : list Byte.byte)
    (w : World) (L : URL) (e : error) :
  loader_Resolve (url_JoinPath U "../") (url_String U) = inr L →
  cache (mr w) !! url_String L = None →
  compiler_Parse (string_of_list_byte data) (url_String L) false = inl e →
  ∃ w1,
    RunSourceData require {| sd_URL := U; sd_Data := data |} w = (Error e, w1) ∧
    cache (mr w1) !! url_String L = Some {| mce_mod := NilModule; mce_err := Some e |} ∧
    ∀ data' w', cache (mr w') !! url_String L
                = Some {| mce_mod := NilModule; mce_err := Some e |} →
      RunSourceData require {| sd_URL := U; sd_Data := data' |} w'
      = (Error e, add_event (EvResolve (url_JoinPath U "../") (url_String U)) w').
Proof.
  intros HL Hc Hparse. eexists. split; [|split].
  - unfold RunSourceData, resolveLoaded, resolveSpecifier, cache_store.
    unfold log, gets, modify, fail, mbind, M_bind, bind, mret, M_ret, ret. simpl.
    rewrite HL. simpl. rewrite Hc, Hparse. simpl. reflexivity.
  - simpl. apply lookup_insert_eq.
  - intros data' w' Hc'. unfold RunSourceData. simpl.
    unfold mbind, M_bind, bind. rewrite (resolveLoaded_hit _ _ _ _ L _ HL Hc'). done.
Qed.

(** *** The call stack *)

Lemma last_cons_default {A} (l : list A) (x d d' : A) :
  List.last (x :: l) d = List.last (x :: l) d'.
Proof. revert x. induction l as [|y l IH]; intros x; [done|]. simpl in *. apply IH. Qed.

Lemma previous_of_require_found (prev : StackFrame) (mid : list StackFrame)
    (req : StackFrame) (post : list StackFrame) :
  Forall (λ frame, String.eqb (FuncName frame) require_fm = false) mid →
  String.eqb (FuncName req) require_fm = true →
  previous_of_require prev (mid ++ req :: post) = Some (SrcName (List.last mid prev)).
Proof.
  intros Hmid Hreq. revert prev. induction Hmid as [|frame mid Hf Hmid IH]; intros prev; simpl.
  - by rewrite Hreq.
  - rewrite Hf, IH. destruct mid; [done|]. f_equal. f_equal. apply last_cons_default.
Qed.

Lemma previous_of_require_none (prev : StackFrame) (rest : list StackFrame) :
  Forall (λ frame, String.eqb (FuncName frame) require_fm = false) rest →
  previous_of_require prev rest = None.
Proof.
  intros Hrest. revert prev. induction Hrest as [|frame rest Hf Hrest IH]; intros prev; simpl.
  - done.
  - by rewrite Hf.
Qed.

(** X10.  [getPreviousRequiringFile] skips the innermost frame and returns
    the source name of the frame just inside the first frame of the
    [require] function it meets among the first 1000 frames: the file whose
    top-level code that [require] call is running. *)
Theorem getPreviousRequiringFile_found
    (r : Runtime) (first : StackFrame) (mid : list StackFrame) (req : StackFrame)
    (post : list StackFrame) :
  frames r = first :: mid ++ req :: post →
  Forall (λ frame, String.eqb (FuncName frame) require_fm = false) mid →
  String.eqb (FuncName req) require_fm = true →
  length mid < 999 →
  getPreviousRequiringFile r = Return (SrcName (List.last mid first)).
Proof.
  intros Hframes Hmid Hreq Hlen. unfold getPreviousRequiringFile, CaptureCallStack.
  rewrite Hframes.
  change (take 1000 (first :: mid ++ req :: post))
    with (first :: take 999 (mid ++ req :: post)).
  rewrite take_app_ge by lia.
  destruct (999 - length mid) as [|n] eqn:Hn; [lia|].
  cbn [take]. by rewrite previous_of_require_found.
Qed.

(** X11.  Without a frame of the [require] function below the innermost
    frame, [getPreviousRequiringFile] falls back to the outermost frame of
    a stack of fewer than 1000 frames, panics with "stack too big" on a
    stack of 1000 frames or more, and panics on an empty stack. *)
Theorem getPreviousRequiringFile_not_found (r : Runtime) :
  Forall (λ frame, String.eqb (FuncName frame) require_fm = false)
         (take 999 (tail (frames r))) →
  getPreviousRequiringFile r
  = match frames r with
    | [] => Panic PanicIndexOutOfRange
    | first :: _ =>
        if decide (length (frames r) < 1000) then Return (SrcName (List.last (frames r) first))
        else Panic (PanicMsg "stack too big")
    end.
Proof.
  intros Hnone. unfold getPreviousRequiringFile, CaptureCallStack.
  destruct (frames r) as [|first rest] eqn:Hframes; [done|].
  change (take 1000 (first :: rest)) with (first :: take 999 rest).
  simpl in Hnone. cbv iota beta. rewrite (previous_of_require_none _ _ Hnone).
  cbn [length]. rewrite length_take.
  destruct (decide (S (length rest) < 1000)) as [Hlt|Hge].
  - rewrite Nat.min_r by lia.
    destruct (Nat.eqb_spec (S (length rest)) 1000); [lia|].
    by rewrite take_ge by lia.
  - rewrite Nat.min_l by lia. done.
Qed.

(** *** The legacy require *)

(** X12.  The parent file of a [require] call made below another
    [require] call is read off that enclosing call: the specifier is
    resolved against the record of the file whose top-level code the
    enclosing call is running, also when the function that makes the call
    was defined in another file; in that case a warning is logged first. *)
Theorem resolveRequired_parent_is_previous_requiring_file
    (specifier : string) (w : World) (first caller : StackFrame) (mid : list StackFrame)
    (req : StackFrame) (post : list StackFrame) :
  frames (rt w) = first :: (caller :: mid) ++ req :: post →
  Forall (λ frame, String.eqb (FuncName frame) require_fm = false) (caller :: mid) →
  String.eqb (FuncName req) require_fm = true →
  length mid < 998 →
  resolveRequired specifier w
  = ('(parentModule, _) ← gojaModuleResolver NilModule (SrcName (List.last mid caller));
     '(m, err) ← gojaModuleResolver parentModule specifier;
     match err with
     | Some e => fail e
     | None => mret m
     end)
      (if String.eqb (SrcName caller) (SrcName (List.last mid caller)) then w
       else add_event (EvWarn specifier (SrcName caller) (SrcName (List.last mid caller))) w).
Proof.
  intros Hframes Hmid Hreq Hlen.
  assert (Hcur : getCurrentModuleScript (rt w) = Return (SrcName caller)).
  { unfold getCurrentModuleScript, CaptureCallStack. by rewrite Hframes. }
  assert (Hprev : getPreviousRequiringFile (rt w) = Return (SrcName (List.last mid caller))).
  { unfold getPreviousRequiringFile, CaptureCallStack. rewrite Hframes.
    change (take 1000 (first :: (caller :: mid) ++ req :: post))
      with (first :: take 999 ((caller :: mid) ++ req :: post)).
    rewrite take_app_ge by (simpl; lia).
    destruct (999 - length (caller :: mid)) as [|n] eqn:Hn; [simpl in Hn; lia|].
    cbn [take]. cbv iota beta. rewrite previous_of_require_found by done.
    f_equal. f_equal. destruct mid as [|frame mid]; [done|].
    exact (last_cons_default mid frame first caller). }
  unfold resolveRequired.
  unfold log, gets, modify, lift_outcome, mbind, M_bind, bind, mret, M_ret, ret. simpl.
  rewrite Hcur, Hprev. simpl.
  destruct (String.eqb_spec (SrcName caller) (SrcName (List.last mid caller))) as [Heq|Hne];
    simpl; [by rewrite <- Heq|done].
Qed.

(** X13.  A specifier outside the built-in namespace that the loader
    cannot resolve against the tracked directory is rejected with the
    loader's error before the call stack is inspected and before the
    resolver is asked: nothing changes but the record of calls. *)
Theorem Require_unresolvable_specifier
    (depth : nat) (specifier : string) (w : World) (e : error) :
  is_builtin specifier = false →
  loader_Resolve (currentlyRequiredModule w) specifier = inl e →
  Require depth specifier w
  = (Error e, add_event (EvResolve (currentlyRequiredModule w) specifier) w).
Proof.
  intros Hb HL. rewrite Require_unfold.
  unfold Require_step, trackCurrentlyRequired, with_defer.
  unfold log, gets, modify, fail, mbind, M_bind, bind, mret, M_ret, ret. simpl.
  rewrite Hb. simpl. rewrite HL. reflexivity.
Qed.

(** X14.  A call made with fewer than two frames on the call stack
    panics on the index of the caller's frame, for every specifier that is
    not empty and that gets that far; the resolver is not asked and the
    tracked directory is the one the call found. *)
Theorem Require_shallow_stack_panics
    (depth : nat) (specifier : string) (w : World) :
  String.eqb specifier "" = false →
  length (frames (rt w)) < 2 →
  (is_builtin specifier = true ∨
   ∃ fileURL, loader_Resolve (currentlyRequiredModule w) specifier = inr fileURL) →
  Require depth specifier w
  = (Panic PanicIndexOutOfRange,
     if is_builtin specifier then w
     else add_event (EvResolve (currentlyRequiredModule w) specifier) w).
Proof.
  intros Hne Hlen Hres.
  assert (Hcur : ∀ w0, rt w0 = rt w → getCurrentModuleScript (rt w0) = Panic PanicIndexOutOfRange).
  { intros w0 ->. unfold getCurrentModuleScript, CaptureCallStack.
    destruct (frames (rt w)) as [|f [|g rest]]; simpl in *; try done. lia. }
  rewrite Require_unfold.
  unfold Require_step, requireResolved, resolveRequired, trackCurrentlyRequired, with_defer.
  unfold log, gets, modify, fail, lift_outcome, mbind, M_bind, bind, mret, M_ret, ret. simpl.
  rewrite Hne.
  destruct (is_builtin specifier) eqn:Hb; simpl.
  - by rewrite Hcur.
  - destruct Hres as [?|[fileURL HL]]; [done|]. rewrite HL. simpl.
    rewrite Hcur by done. reflexivity.
Qed.


End module_system_more.

(** ** gomodule.go and gomodule_basic.go: more on host modules *)

Section host_modules_more.

(** X16.  Asking a conforming host module for its exported names before
    its first instantiation panics and spends the [sync.Once]: no later
    instantiation computes the names, and [GetExportedNames] returns the
    list the record had, without panicking, from then on. *)
Theorem goModule_names_asked_too_early (gm : goModule) :
  gm_once gm = false →
  ∃ gm1,
    GoModule.GetExportedNames gm = (Panic (PanicMsg "this shouldn't happen"), gm1) ∧
    (∀ rt, (GoModule.Instantiate rt gm1).2 = gm1) ∧
    GoModule.GetExportedNames gm1 = (Return (gm_exportedNames gm), gm1).
Proof.
  intros Honce. unfold GoModule.GetExportedNames. rewrite Honce.
  eexists. split; [reflexivity|]. split; [|done].
  intros rt. unfold GoModule.Instantiate. simpl. by destruct (vubox rt).
Qed.


(** X18.  A conforming host module that has only named exports: every name
    other than [default] is bound to the runtime value of its entry, and
    the derived default object has the same value under the same name.
    For a name that is not exported the two differ: the binding is null,
    the property of the default object is missing. *)
Theorem named_bindings_and_derived_default
    (gmi : goModuleInstance) (rt : Runtime) (named : gmap string GoAny) :
  gmi_defaultExport gmi = None →
  Default (mi_Exports (gmi_mi gmi)) = AnyNil →
  Named (mi_Exports (gmi_mi gmi)) = Some named →
  ∃ o gmi' rt',
    GoModule.getDefaultExport gmi rt = (VObj o, gmi', rt') ∧
    ∀ name, name ≠ "default" →
      GoModule.GetBindingValue gmi' name rt'
      = (Return (Some match named !! name with
                      | Some v => ToValue v
                      | None => VNull
                      end), gmi', rt') ∧
      Object_Get rt' o name = ToValue <$> named !! name.
Proof.
  intros Hmemo Hdefault Hnamed.
  unfold GoModule.getDefaultExport. rewrite Hmemo, Hdefault, Hnamed. simpl.
  set (l := fresh (dom (objects rt))).
  rewrite (fold_left_Object_Set l _ _ ∅) by (simpl; apply lookup_insert_eq).
  rewrite fold_left_insert_map_to_list.
  eexists (ObjRef l), _, _. split; [reflexivity|].
  intros name Hname. split.
  - unfold GoModule.GetBindingValue. simpl.
    destruct (String.eqb_spec name "default"); [done|]. rewrite Hnamed.
    by destruct (named !! name).
  - simpl. rewrite lookup_insert_eq. simpl. by rewrite lookup_fmap.
Qed.


End host_modules_more.

(** ** part_001, second file: more on factory modules *)

Section cjs_module_more.
Context {collab : Collaborators} {interp : Interpreter}.

(** X20.  A factory body that returns with an object in [module.exports]:
    that object, which need not be the one the body was given, becomes the
    exports of the instance; the interop flag is the truth value of its
    [__esModule] property; and the record's exported names become the keys
    of the object if no body of the record has finished before, and stay
    as they are otherwise. *)
Theorem ExecuteModule_takes_final_exports
    (require : string → M (option Object)) (cmi : cjsModuleInstance) (cm cm3 : cjsModule)
    (w w1 wa wb w3 : World) (v r : Value) (call : nat) (module exports o : Object) :
  heap w !! cmi_w cmi = Some (HeapCjsModule cm) →
  RunProgram (cm_prg cm) w = (Return v, w1) →
  AssertFunction v = Some call →
  Cjs.new_object w1 = (Return module, wa) →
  Cjs.new_object wa = (Return exports, wb) →
  CallFunction require call (VObj exports) [VObj module; VObj exports]
    (set_rt (Object_Set module "exports" (VObj exports)) wb) = (Return r, w3) →
  Object_Get (rt w3) module "exports" = Some (VObj o) →
  heap w3 !! cmi_w cmi = Some (HeapCjsModule cm3) →
  ∃ w4,
    Cjs.ExecuteModule require cmi w
    = (Return ({| cmi_exports := Some o; cmi_w := cmi_w cmi;
                  cmi_isEsModuleMarked :=
                    match Object_Get (rt w3) o "__esModule" with
                    | Some marker => ToBoolean marker
                    | None => false
                    end |}, None), w4) ∧
    rt w4 = rt w3 ∧
    heap w4 !! cmi_w cmi
    = Some (HeapCjsModule
              (if cm_o cm3 then cm3
               else {| cm_prg := cm_prg cm3; cm_main := cm_main cm3;
                       cm_exportedNames := Object_Keys (rt w3) o; cm_o := true |})).
Proof.
  intros Hheap Hrun Hfun Hmod Hexp Hcall Hget Hheap3.
  unfold Cjs.ExecuteModule.
  unfold attempt, gets, modify, panic, lift_outcome, mbind, M_bind, bind, mret, M_ret, ret.
  cbv beta. rewrite Hheap, Hrun. cbv beta iota. rewrite Hmod. cbv beta iota.
  rewrite Hexp. cbv beta iota. rewrite Hfun, Hcall. cbv beta iota.
  unfold Cjs.set_exportedNames_once, modify. rewrite Hget. simpl. rewrite Hheap3.
  destruct (cm_o cm3) eqn:Ho.
  - eexists. split; [reflexivity|]. by rewrite Hheap3.
  - eexists. split; [reflexivity|]. simpl. by rewrite lookup_insert_eq.
Qed.

End cjs_module_more.

(** ** The further properties on the small installation *)

Section on_cases.
Import Scenario Cases.
#[local] Existing Instances collaborators interpreter evaluator.
#[local] Canonical Structure collaborators.

(** The entry of [/a/sub/c.js] outlives the resolution of [./d.js]. *)
Lemma cache_entries_are_kept_witness :
  cache (mr world_after_c) !! "file:///a/sub/c.js"
  = Some {| mce_mod := CjsModulePtr 0; mce_err := None |} ∧
  cache (mr (resolve "file:///a/sub/" "./d.js" world_after_c).2) !! "file:///a/sub/c.js"
  = Some {| mce_mod := CjsModulePtr 0; mce_err := None |}.
Proof.
  assert (Hc : cache (mr world_after_c) !! "file:///a/sub/c.js"
               = Some {| mce_mod := CjsModulePtr 0; mce_err := None |})
    by (vm_compute; reflexivity).
  split; [exact Hc|].
  exact (proj1 (cache_entries_are_kept "file:///a/sub/" "./d.js" [] world_after_c _ _ Hc)).
Defined.

Lemma resolution_keeps_resolver_consistent_witness :
  resolver_consistent world0 ∧
  resolver_consistent (resolve "file:///a/" "./sub/c.js" world0).2.
Proof.
  assert (H0 : resolver_consistent world0)
    by exact (new_resolver_consistent builtins "file:///a/" ∅ runtime0 "file:///a/" []).
  split; [exact H0|].
  exact (proj1 (resolution_keeps_resolver_consistent "file:///a/" "./sub/c.js" [] world0 H0)).
Defined.

(** [/a/sub/c.js] and [/a/sub/d.js] get the records at addresses 0 and 1. *)
Lemma different_keys_different_records_witness :
  cache_key "file:///a/" "./sub/c.js" = Some "file:///a/sub/c.js" ∧
  cache_key "file:///a/" "./sub/d.js" = Some "file:///a/sub/d.js" ∧
  resolve "file:///a/" "./sub/c.js" world0 = (Return (CjsModulePtr 0, None), world_after_c) ∧
  (resolve "file:///a/" "./sub/d.js" world_after_c).1 = Return (CjsModulePtr 1, None) ∧
  CjsModulePtr 0 ≠ CjsModulePtr 1.
Proof.
  assert (HA : resolve "file:///a/" "./sub/c.js" world0
               = (Return (CjsModulePtr 0, None), world_after_c)) by (vm_compute; reflexivity).
  assert (HB : resolve "file:///a/" "./sub/d.js" world_after_c
               = (Return (CjsModulePtr 1, None),
                  (resolve "file:///a/" "./sub/d.js" world_after_c).2))
    by (vm_compute; reflexivity).
  split; [reflexivity|]. split; [reflexivity|]. split; [exact HA|].
  split; [by rewrite HB|].
  refine (proj1 (different_keys_different_records "file:///a/" "file:///a/"
                   "./sub/c.js" "./sub/d.js" "file:///a/sub/c.js" "file:///a/sub/d.js"
                   world0 world_after_c _ (CjsModulePtr 0) (CjsModulePtr 1)
                   eq_refl eq_refl _ eq_refl eq_refl HA HB)).
  discriminate.
Defined.

(** The record of [/a/sub/c.js] as a referrer. *)
Lemma cached_script_is_a_referrer_witness :
  resolver_consistent world_after_c ∧
  assoc_lookup (CjsModulePtr 0) (reverse (mr world_after_c)) = Some "file:///a/sub/c.js" ∧
  gojaModuleResolver (CjsModulePtr 0) "./d.js" world_after_c
  = resolve "file:///a/sub/" "./d.js" world_after_c.
Proof.
  assert (Hw : resolver_consistent world_after_c).
  { apply (resolve_keeps_consistent (collab := collaborators)).
    exact (new_resolver_consistent builtins "file:///a/" ∅ runtime0 "file:///a/" []). }
  split; [exact Hw|].
  destruct (cached_script_is_a_referrer world_after_c "file:///a/sub/c.js"
              {| mce_mod := CjsModulePtr 0; mce_err := None |} Hw)
    as (L & HL & Hrev & Href); [vm_compute; reflexivity | reflexivity |].
  simpl in HL. subst L. split; [exact Hrev|]. exact (Href "./d.js").
Defined.

(** [/a/half.js] parses as a factory module and does not compile. *)
Lemma failed_compile_rebases_nil_referrer_witness :
  ∃ w',
    resolveLoaded "file:///a/" "./half.js" (list_byte_of_string "half") world0
    = (Return (NilModule, Some (ErrOther "compile error")), w') ∧
    assoc_lookup NilModule (reverse (mr w')) = Some "file:///a/half.js" ∧
    gojaModuleResolver NilModule "./x.js" w' = resolve "file:///a/" "./x.js" w'.
Proof.
  destruct (failed_compile_rebases_nil_referrer "file:///a/" "./half.js"
              (list_byte_of_string "half") world0 "file:///a/half.js" "half"
              (ErrOther "compile error"))
    as (w' & H1 & H2 & H3); [reflexivity..|].
  exists w'. split; [exact H1|]. split; [exact H2|]. exact (H3 "./x.js").
Defined.

Lemma resolve_after_resolveLoaded_witness :
  ∃ m err w1,
    resolveLoaded "file:///a/" "./sub/c.js" (list_byte_of_string "cjs3") world0
    = (Return (m, err), w1) ∧
    resolve "file:///a/" "./sub/c.js" w1
    = (Return (m, err), add_event (EvResolve "file:///a/" "./sub/c.js") w1).
Proof.
  exact (resolve_after_resolveLoaded "file:///a/" "./sub/c.js" (list_byte_of_string "cjs3")
           world0 eq_refl).
Defined.

(** [/a/sub/c.js] is in the cache: as a root it runs from there. *)
Lemma RunSourceData_uses_cached_root_witness :
  RunSourceData (Require 1)
    {| sd_URL := "file:///a/sub/c.js"; sd_Data := list_byte_of_string "garbage" |}
    world_after_c
  = RunSourceData (Require 1)
      {| sd_URL := "file:///a/sub/c.js"; sd_Data := list_byte_of_string "cjs3" |}
      world_after_c.
Proof.
  apply (RunSourceData_uses_cached_root (Require 1) "file:///a/sub/c.js" _ _ world_after_c
           "file:///a/sub/c.js" {| mce_mod := CjsModulePtr 0; mce_err := None |}).
  - reflexivity.
  - vm_compute. reflexivity.
Defined.

(** [/a/garbage.js] does not parse. *)
Lemma RunSourceData_parse_error_sticks_witness :
  ∃ w1,
    RunSourceData (Require 1)
      {| sd_URL := "file:///a/garbage.js"; sd_Data := list_byte_of_string "garbage" |}
      world0
    = (Error (ErrOther "SyntaxError"), w1) ∧
    RunSourceData (Require 1)
      {| sd_URL := "file:///a/garbage.js"; sd_Data := list_byte_of_string "cjs0" |} w1
    = (Error (ErrOther "SyntaxError"),
       add_event (EvResolve "file:///a/" "file:///a/garbage.js") w1).
Proof.
  destruct (RunSourceData_parse_error_sticks (Require 1) "file:///a/garbage.js"
              (list_byte_of_string "garbage") world0 "file:///a/garbage.js"
              (ErrOther "SyntaxError"))
    as (w1 & H1 & H2 & H3); [reflexivity..|].
  exists w1. split; [exact H1|]. exact (H3 _ w1 H2).
Defined.

Lemma getPreviousRequiringFile_found_witness :
  getPreviousRequiringFile (set_frames nested_frames runtime0) = Return "file:///a/sub/c.js".
Proof.
  apply (getPreviousRequiringFile_found (set_frames nested_frames runtime0) native_require
           [script_frame "file:///a/sub/c.js"] native_require
           [script_frame "file:///a/b.js"]).
  - reflexivity.
  - repeat constructor.
  - reflexivity.
  - simpl. lia.
Defined.

Lemma getPreviousRequiringFile_not_found_witness :
  getPreviousRequiringFile runtime0 = Return "file:///a/b.js".
Proof.
  rewrite (getPreviousRequiringFile_not_found runtime0).
  - reflexivity.
  - repeat constructor.
Defined.

(** The body of [/a/sub/c.js] requires [./d.js]. *)
Lemma resolveRequired_parent_is_previous_requiring_file_witness :
  resolveRequired "./d.js" (with_frames nested_frames world0)
  = ('(parentModule, _) ← gojaModuleResolver NilModule "file:///a/sub/c.js";
     '(m, err) ← gojaModuleResolver parentModule "./d.js";
     match err with
     | Some e => fail e
     | None => mret m
     end) (with_frames nested_frames world0).
Proof.
  exact (resolveRequired_parent_is_previous_requiring_file "./d.js"
           (with_frames nested_frames world0) native_require
           (script_frame "file:///a/sub/c.js") [] native_require
           [script_frame "file:///a/b.js"] eq_refl
           ltac:(repeat constructor) eq_refl ltac:(simpl; lia)).
Defined.

Lemma Require_unresolvable_specifier_witness :
  Require 0 "%zz" world0
  = (Error (ErrOther "invalid URL escape"), add_event (EvResolve "file:///a/" "%zz") world0).
Proof.
  exact (Require_unresolvable_specifier 0 "%zz" world0 (ErrOther "invalid URL escape")
           eq_refl eq_refl).
Defined.

(** A call from the host itself, with the native frame alone on the stack. *)
Lemma Require_shallow_stack_panics_witness :
  Require 0 "k6/named" (with_frames [native_require] world0)
  = (Panic PanicIndexOutOfRange, with_frames [native_require] world0).
Proof.
  apply (Require_shallow_stack_panics 0 "k6/named" (with_frames [native_require] world0)).
  - reflexivity.
  - simpl. lia.
  - left. reflexivity.
Defined.


Lemma goModule_names_asked_too_early_witness :
  ∃ gm1,
    GoModule.GetExportedNames named_module = (Panic (PanicMsg "this shouldn't happen"), gm1) ∧
    (GoModule.Instantiate runtime0 gm1).2 = gm1 ∧
    GoModule.GetExportedNames gm1 = (Return [], gm1).
Proof.
  destruct (goModule_names_asked_too_early named_module eq_refl) as (gm1 & H1 & H2 & H3).
  exists gm1. split; [exact H1|]. split; [exact (H2 runtime0)|exact H3].
Defined.

Lemma named_bindings_and_derived_default_witness :
  ∃ o gmi' rt',
    GoModule.getDefaultExport named_instance runtime0 = (VObj o, gmi', rt') ∧
    GoModule.GetBindingValue gmi' "x" rt' = (Return (Some (VPrim (PNum 1))), gmi', rt') ∧
    Object_Get rt' o "x" = Some (VPrim (PNum 1)) ∧
    GoModule.GetBindingValue gmi' "z" rt' = (Return (Some VNull), gmi', rt') ∧
    Object_Get rt' o "z" = None.
Proof.
  destruct (named_bindings_and_derived_default named_instance runtime0 named_xy
              eq_refl eq_refl eq_refl) as (o & gmi' & rt' & H1 & H2).
  exists o, gmi', rt'. split; [exact H1|].
  destruct (H2 "x") as [Hx1 Hx2]; [discriminate|].
  destruct (H2 "z") as [Hz1 Hz2]; [discriminate|].
  split; [exact Hx1|]. split; [exact Hx2|]. split; [exact Hz1|exact Hz2].
Defined.


(** A factory body that leaves [module.exports] alone. *)
Lemma ExecuteModule_takes_final_exports_witness :
  ∃ w4,
    Cjs.ExecuteModule (Require 0) (Cjs.Instantiate 0) (world_cjs 0)
    = (Return ({| cmi_exports := Some (ObjRef 1); cmi_w := 0;
                  cmi_isEsModuleMarked := false |}, None), w4) ∧
    heap w4 !! 0
    = Some (HeapCjsModule {| cm_prg := {| prg_id := 0 |}; cm_main := false;
                             cm_exportedNames := []; cm_o := true |}).
Proof.
  destruct (ExecuteModule_takes_final_exports (Require 0) (Cjs.Instantiate 0)
              {| cm_prg := {| prg_id := 0 |}; cm_main := false;
                 cm_exportedNames := []; cm_o := false |}
              {| cm_prg := {| prg_id := 0 |}; cm_main := false;
                 cm_exportedNames := []; cm_o := false |}
              (world_cjs 0) (world_cjs 0)
              (Cjs.new_object (world_cjs 0)).2
              (Cjs.new_object (Cjs.new_object (world_cjs 0)).2).2
              (set_rt (Object_Set (ObjRef 0) "exports" (VObj (ObjRef 1)))
                      (Cjs.new_object (Cjs.new_object (world_cjs 0)).2).2)
              (VObj (ObjFunc 0)) VUndefined 0 (ObjRef 0) (ObjRef 1) (ObjRef 1))
    as (w4 & H1 & _ & H3); [vm_compute; reflexivity..|].
  exists w4. split; [exact H1|exact H3].
Defined.

Lemma ExecuteModule_reads_back_witness :
  ∃ o cmi' w4,
    ToObject (Some (VObj (ObjRef 1))) = Return o ∧
    Cjs.ExecuteModule (Require 0) (Cjs.Instantiate 0) (world_cjs 0) = (Return (cmi', None), w4) ∧
    cmi_exports cmi' = Some o.
Proof.
  exact (ExecuteModule_reads_back (Require 0) (Cjs.Instantiate 0)
           {| cm_prg := {| prg_id := 0 |}; cm_main := false;
              cm_exportedNames := []; cm_o := false |}
           (world_cjs 0) (world_cjs 0)
           (Cjs.new_object (world_cjs 0)).2
           (Cjs.new_object (Cjs.new_object (world_cjs 0)).2).2
           (set_rt (Object_Set (ObjRef 0) "exports" (VObj (ObjRef 1)))
                   (Cjs.new_object (Cjs.new_object (world_cjs 0)).2).2)
           (VObj (ObjFunc 0)) VUndefined 0 (ObjRef 0) (ObjRef 1)
           eq_refl eq_refl eq_refl eq_refl eq_refl eq_refl).
Defined.

Lemma builtin_name_same_record_witness :
  ∃ m err wA,
    resolve "file:///a/" "k6/named" world0 = (Return (m, err), wA) ∧
    resolve "file:///a/sub/" "k6/named" wA = (Return (m, err), wA).
Proof.
  destruct (builtin_name_same_record "file:///a/" "file:///a/sub/" "k6/named" world0 eq_refl)
    as (m & err & wA & evs & H1 & H2 & _).
  exists m, err, wA. split; [exact H1|exact H2].
Defined.

End on_cases.
